(** * sleepremover: the language-code extractor, the downloader and the
    sleep-message processor of [utils/sleepRemover], embedded in Rocq.

    Python strings are sequences of Unicode code points, so a string is a
    list of code points ([N]).  The three character classes the code uses
    ([\d] of the [re] module, [str.isalpha], [str.isdigit]) are fixed on
    ASCII and left to a parameter on the other code points. *)

From Stdlib Require Import String Ascii NArith List Lia.
From stdpp Require Import gmap list.

Local Open Scope N_scope.

(** ** Strings *)

Abbreviation pystr := (list N).

(** An ASCII literal as a Python string. *)
Definition lit (s : string) : pystr :=
  map N_of_ascii (list_ascii_of_string s).

Definition PERCENT : N := 37.
Definition DOLLAR : N := 36.
Definition QUESTION : N := 63.
Definition UNDERSCORE : N := 95.
Definition LOWER_S : N := 115.
Definition LOWER_D : N := 100.
Definition SLASH : N := 47.
Definition DOT : N := 46.
(** U+200C ZERO WIDTH NON-JOINER and U+2013 EN DASH, as they stand in
    [languages.py]. *)
Definition ZWNJ : N := 8204.
Definition EN_DASH : N := 8211.

Definition is_ascii (c : N) : bool := c <? 128.
Definition ascii_digit (c : N) : bool := (48 <=? c) && (c <=? 57).
Definition ascii_letter (c : N) : bool :=
  ((65 <=? c) && (c <=? 90)) || ((97 <=? c) && (c <=? 122)).

(** [s.startswith(old)]. *)
Fixpoint starts_with (old s : pystr) : bool :=
  match old, s with
  | [], _ => true
  | _ :: _, [] => false
  | a :: old', b :: s' => (a =? b) && starts_with old' s'
  end.

(** [sub in s] for strings. *)
Fixpoint str_in (sub s : pystr) : bool :=
  starts_with sub s ||
  match s with
  | [] => false
  | _ :: tl => str_in sub tl
  end.

(** [c in s] for a one-character needle, as the verification pass uses it. *)
Definition char_in (c : N) (s : pystr) : bool := str_in [c] s.

(** ** Left-to-right substitution

    [str.replace] and [re.sub] both scan the subject from the left; where
    the pattern matches they emit the replacement and go on after the
    match, elsewhere they copy one character.  [matcher s] is the length
    of the match at the head of [s]; [skip] counts the characters of the
    current match still to be dropped. *)

Section Scan.

Variable matcher : pystr -> option nat.
Variable repl : pystr.

Fixpoint scan_from (skip : nat) (s : pystr) : pystr :=
  match s with
  | [] => []
  | c :: tl =>
    match skip with
    | S k => scan_from k tl
    | O =>
      match matcher s with
      | Some (S n) => repl ++ scan_from n tl
      | _ => c :: scan_from 0 tl
      end
    end
  end.

Definition scan_sub (s : pystr) : pystr := scan_from 0 s.

End Scan.

(** The matcher of a literal pattern. *)
Definition literal_match (old s : pystr) : option nat :=
  if starts_with old s then Some (length old) else None.

(** [s.replace(old, new)].  With an empty [old] Python puts [new] before
    every character and at the end. *)
Definition str_replace (old new s : pystr) : pystr :=
  match old with
  | [] => new ++ flat_map (fun c => c :: new) s
  | _ :: _ => scan_sub (literal_match old) new s
  end.

Section Classes.

(** [re]'s [\d] on a [str] pattern is the Unicode decimal digits; on ASCII
    these are 0-9. *)
Variable uni_decimal : N -> bool.

Definition re_digit (c : N) : bool :=
  if is_ascii c then ascii_digit c else uni_decimal c.

(** The longest run of [\d] at the head of [s]. *)
Fixpoint digit_run (s : pystr) : nat :=
  match s with
  | c :: tl => if re_digit c then S (digit_run tl) else O
  | [] => O
  end.

(** The match of [%\d+\$s] at the head of [s]: a percent sign, the digits
    that follow it (at least one), a dollar sign and an s. *)
Definition indexed_match (s : pystr) : option nat :=
  match s with
  | c :: tl =>
    if c =? PERCENT then
      match digit_run tl with
      | O => None
      | S k =>
        match skipn (S k) tl with
        | d :: e :: _ =>
          if (d =? DOLLAR) && (e =? LOWER_S) then Some (S (S k) + 2)%nat
          else None
        | _ => None
        end
      end
    else None
  | [] => None
  end.

(** [re.sub(r'%\d+\$s', repl, s)]. *)
Definition re_sub_indexed (repl s : pystr) : pystr :=
  scan_sub indexed_match repl s.

(** ** The placeholder rewrite of [process_sleep_messages]
    (languages.py, lines 145-160). *)
Definition rewrite_placeholders (sleep_msg : pystr) : pystr :=
  let processed_msg := sleep_msg in
  let processed_msg :=
    if str_in (lit "%s/%s") processed_msg
    then str_replace (lit "%s/%s") (lit "???") processed_msg
    else processed_msg in
  let processed_msg := re_sub_indexed (lit "??") processed_msg in
  let processed_msg := str_replace (lit "%s") (lit "??") processed_msg in
  let processed_msg := str_replace (lit "%d") (lit "??") processed_msg in
  processed_msg.

End Classes.

Arguments re_digit : simpl never.

(** ** More string methods *)

(** [s.count(sub)] for a non-empty [sub]: occurrences counted from the
    left, none overlapping the one before.  [skip] as in [scan_from]. *)
Fixpoint count_from (sub : pystr) (skip : nat) (s : pystr) : nat :=
  match s with
  | [] => O
  | _ :: tl =>
    match skip with
    | S k => count_from sub k tl
    | O =>
      match literal_match sub s with
      | Some (S n) => S (count_from sub n tl)
      | _ => count_from sub 0 tl
      end
    end
  end.

Definition str_count (sub s : pystr) : nat := count_from sub 0 s.

(** [s.split(sep)] for a non-empty [sep].  [cur] is the piece being read. *)
Fixpoint split_from (sep : pystr) (skip : nat) (cur s : pystr)
  : list pystr :=
  match s with
  | [] => [cur]
  | c :: tl =>
    match skip with
    | S k => split_from sep k cur tl
    | O =>
      match literal_match sep s with
      | Some (S n) => cur :: split_from sep n [] tl
      | _ => split_from sep 0 (cur ++ [c]) tl
      end
    end
  end.

Definition str_split (sep s : pystr) : list pystr := split_from sep 0 [] s.

Definition str_eqb (a b : pystr) : bool := bool_decide (a = b).

(** What the errors of the program say. *)
Inductive error :=
| FailedToFetchPage       (* "Failed to fetch the page" *)
| ErrorParsingPage        (* "Error parsing the page" *)
| FailedToFetchContents   (* "Failed to fetch repository contents" *)
| ErrorDownloading        (* "Error downloading language files" *)
| FallbackNotFound        (* "Fallback file en_gb.json not found in cache" *)
| JSONDecodeError         (* json.load on text that is not JSON *)
| AttributeError          (* .get on JSON that is not an object *)
| KeyError                (* a missing key of a dict *)
| FileExistsError         (* mkdir on the path of a file *)
| NotADirectoryError      (* mkdir under the path of a file *)
| OSError.                (* open or write refused *)

(** What [requests.get] on the wiki page comes to: the request fails, the
    page has no table with [data-description="Current language list"], or
    it has one with these rows. *)
Inductive page :=
| PageUnreachable
| PageWithoutTable
| PageWithTable (rows : list (list pystr)).

Section Extractor.

(** [str.isalpha] and [str.isdigit] off ASCII. *)
Variable uni_alpha : N -> bool.
Variable uni_digit : N -> bool.

Definition isalpha_char (c : N) : bool :=
  if is_ascii c then ascii_letter c else uni_alpha c.

Definition isdigit_char (c : N) : bool :=
  if is_ascii c then ascii_digit c else uni_digit c.

(** [s.isalpha()], [s.isdigit()]: every character in the class, and at
    least one character. *)
Definition str_isalpha (s : pystr) : bool :=
  negb (str_eqb s []) && forallb isalpha_char s.

Definition str_isdigit (s : pystr) : bool :=
  negb (str_eqb s []) && forallb isdigit_char s.

(** The marker of a code that only Java Edition has, with the zero-width
    non-joiner the wiki puts before it. *)
Definition JE_ONLY : pystr := ZWNJ :: lit "[JEonly]".

(** ** [get_language_codes] (languages.py, lines 10-64)

    A table row is the list of the texts of its [td] cells, each as
    [get_text(strip=True)] gives it.  [row_code] is the body of the loop
    over the rows: the code the row appends to [language_codes], if any. *)
Definition row_code (cells : list pystr) : option pystr :=
  if (length cells <? 6)%nat then None
  else
    let first_cell := nth 0 cells [] in
    if negb (str_isdigit first_cell) then None
    else if (4 <? length cells)%nat then
      let language_code := nth 4 cells [] in
      if negb (str_eqb language_code []) &&
         negb (str_eqb language_code [EN_DASH]) then
        if str_in JE_ONLY language_code then
          let je_code := nth 0 (str_split JE_ONLY language_code) [] in
          if negb (str_eqb je_code []) &&
             (str_count [UNDERSCORE] je_code =? 1)%nat &&
             (length (str_split [UNDERSCORE] je_code) =? 2)%nat
          then Some je_code else None
        else if (str_count [UNDERSCORE] language_code =? 0)%nat &&
                str_isalpha language_code &&
                (2 <=? length language_code)%nat
        then Some language_code
        else if (str_count [UNDERSCORE] language_code =? 1)%nat &&
                (length (str_split [UNDERSCORE] language_code) =? 2)%nat &&
                forallb (fun part => str_isalpha part &&
                                     (2 <=? length part)%nat)
                        (str_split [UNDERSCORE] language_code)
        then Some language_code
        else None
      else None
    else None.

(** The loop: [language_codes] starts empty and each accepted row appends
    its code to it. *)
Definition extract_codes (rows : list (list pystr)) : list pystr :=
  fold_left
    (fun language_codes row =>
       match row_code row with
       | Some code => language_codes ++ [code]
       | None => language_codes
       end)
    rows [].

Definition get_language_codes (pg : page) : error + list pystr :=
  match pg with
  | PageUnreachable => inl FailedToFetchPage
  | PageWithoutTable => inl ErrorParsingPage
  | PageWithTable rows => inr (extract_codes rows)
  end.

End Extractor.

(** ** Files and JSON

    A translation file is a JSON object from strings to strings; [JOther]
    is any other JSON value.  A file holds the text [json.dumps] made of a
    value, or text that is not JSON (an empty or half-written file). *)

Abbreviation doc := (gmap pystr pystr).

Inductive json :=
| JObject (d : doc)
| JOther.

Inductive content :=
| Text (j : json)
| Garbage.

(** The file system by path: [files] gives what the regular file at a
    path holds, [dirs] the paths of the directories.  A path is the text
    the program hands to the system, and two texts are two entries: a
    path written with [..] or through a link is not taken back to the
    path it stands for. *)
Record fsys := {
  files : gmap pystr content;
  dirs : gset pystr
}.

(** What [open(path, 'w')] followed by a write comes to. *)
Inductive disk_outcome :=
| OpenFails
| WriteFails
| WriteOk.

(** Code that reads and writes files and may raise: the state is kept
    when an exception is raised, as what was written stays written. *)
Definition M (A : Type) : Type := fsys -> (error + A) * fsys.

#[global] Instance M_ret : MRet M := fun A a fs => (inr a, fs).

#[global] Instance M_bind : MBind M := fun A B f m fs =>
  match m fs with
  | (inr a, fs') => f a fs'
  | (inl e, fs') => (inl e, fs')
  end.

Definition raise {A} (e : error) : M A := fun fs => (inl e, fs).

Definition lift {A} (r : error + A) : M A :=
  match r with
  | inl e => raise e
  | inr a => mret a
  end.

(** [for x in l: body(x)]. *)
Fixpoint for_each {A} (l : list A) (body : A -> M unit) : M unit :=
  match l with
  | [] => mret tt
  | x :: rest => _ ← body x; for_each rest body
  end.

(** [Path.exists()]: true of a file and of a directory. *)
Definition path_exists (p : pystr) : M bool := fun fs =>
  (inr (bool_decide (is_Some (files fs !! p)) || bool_decide (p ∈ dirs fs)),
   fs).

(** The parts of a path as pathlib keeps them: what stands between the
    slashes, without the empty parts and the [.] parts. *)
Definition path_parts (p : pystr) : list pystr :=
  List.filter
    (fun part => negb (str_eqb part []) && negb (str_eqb part [DOT]))
    (str_split [SLASH] p).

(** The paths that end at each part in turn, [cur] being what is read so
    far with its slash. *)
Fixpoint paths_to (cur : pystr) (parts : list pystr) : list pystr :=
  match parts with
  | [] => []
  | part :: rest =>
    let here := cur ++ part in
    here :: paths_to (here ++ [SLASH]) rest
  end.

(** [Path(p).parents], the outermost first, without the root and the
    current directory: the directories that have to be there for [p] to
    be made. *)
Definition path_parents (p : pystr) : list pystr :=
  removelast
    (paths_to (if starts_with [SLASH] p then [SLASH] else []) (path_parts p)).

(** [Path.mkdir(parents=True, exist_ok=True)]: the directories above [p]
    that are missing are made, then [p] itself, and a directory that is
    there already is left as it is.  A regular file above [p] or at [p]
    makes the call raise, and then nothing has been made. *)
Definition mkdir (p : pystr) : M unit := fun fs =>
  if existsb (fun a => bool_decide (is_Some (files fs !! a))) (path_parents p)
  then (inl NotADirectoryError, fs)
  else
    match files fs !! p with
    | Some _ => (inl FileExistsError, fs)
    | None =>
      (inr tt,
       {| files := files fs;
          dirs := {[p]} ∪ list_to_set (path_parents p) ∪ dirs fs |})
    end.

(** [with open(p, 'r') as f: json.load(f)]. *)
Definition load_json (p : pystr) : M json := fun fs =>
  match files fs !! p with
  | None => (inl OSError, fs)
  | Some Garbage => (inl JSONDecodeError, fs)
  | Some (Text j) => (inr j, fs)
  end.

(** [data.get(key, default)]. *)
Definition json_get (data : json) (key default : pystr) : M pystr :=
  match data with
  | JObject d =>
    mret (match d !! key with Some v => v | None => default end)
  | JOther => raise AttributeError
  end.

Definition set_file (p : pystr) (c : content) (fs : fsys) : fsys :=
  {| files := <[p := c]> (files fs); dirs := dirs fs |}.

Definition SLEEP_KEY : pystr := lit "sleep.players_sleeping".
Definition CACHE_DIR : pystr := lit ".cache/languages".
Definition DEFAULT_SLEEP_MSG : pystr := lit "%s/%s players sleeping".
Definition DOT_JSON : pystr := lit ".json".

(** The test of the verification pass (languages.py, line 183). *)
Definition has_placeholder (sleep_msg : pystr) : bool :=
  char_in PERCENT sleep_msg &&
  (char_in LOWER_S sleep_msg || char_in LOWER_D sleep_msg).

Section World.

Variable uni_decimal : N -> bool.
Variable uni_alpha : N -> bool.
Variable uni_digit : N -> bool.

(** [dir / name] of pathlib. *)
Variable path_join : pystr -> pystr -> pystr.
(** The disk, asked to create or truncate a file and write to it. *)
Variable disk : pystr -> disk_outcome.
(** The wiki page as [requests.get] finds it. *)
Variable wiki : page.

(** [with open(p, 'w') as f: json.dump(data, f)]: opening truncates the
    file; a write that fails leaves it without JSON in it. *)
Definition dump_json (p : pystr) (data : json) : M unit := fun fs =>
  match disk p with
  | OpenFails => (inl OSError, fs)
  | WriteFails => (inl OSError, set_file p Garbage fs)
  | WriteOk => (inr tt, set_file p (Text data) fs)
  end.

(** ** [process_sleep_messages] (languages.py, lines 100-191) *)

(** Lines 133-143: the message of a language, from its file in the cache
    or from the fallback. *)
Definition source_message (fallback_sleep_msg lang_code : pystr) : M pystr :=
  let lang_file := path_join CACHE_DIR (lang_code ++ DOT_JSON) in
  ex ← path_exists lang_file;
  if ex : bool then
    lang_data ← load_json lang_file;
    json_get lang_data SLEEP_KEY fallback_sleep_msg
  else mret fallback_sleep_msg.

(** Lines 132-169: the body of the loop over the language codes. *)
Definition process_one (output_dir fallback_sleep_msg lang_code : pystr)
  : M unit :=
  sleep_msg ← source_message fallback_sleep_msg lang_code;
  let processed_msg := rewrite_placeholders uni_decimal sleep_msg in
  let output_file := path_join output_dir (lang_code ++ DOT_JSON) in
  let output_data := JObject {[ SLEEP_KEY := processed_msg ]} in
  dump_json output_file output_data.

(** Lines 174-184: the verification pass, which collects the codes whose
    output still looks like it holds a placeholder. *)
Fixpoint check_unmodified (output_dir : pystr) (language_codes : list pystr)
    (unmodified_files : list (pystr * pystr)) : M (list (pystr * pystr)) :=
  match language_codes with
  | [] => mret unmodified_files
  | lang_code :: rest =>
    let output_file := path_join output_dir (lang_code ++ DOT_JSON) in
    ex ← path_exists output_file;
    if ex : bool then
      data ← load_json output_file;
      sleep_msg ← json_get data SLEEP_KEY [];
      if has_placeholder sleep_msg
      then check_unmodified output_dir rest
             (unmodified_files ++ [(lang_code, sleep_msg)])
      else check_unmodified output_dir rest unmodified_files
    else check_unmodified output_dir rest unmodified_files
  end.

(** Lines 112-169: everything before the verification pass.  It returns
    the language codes. *)
Definition write_outputs (output_path : pystr) : M (list pystr) :=
  language_codes ← lift (get_language_codes uni_alpha uni_digit wiki);
  let output_dir := output_path in
  _ ← mkdir output_dir;
  let fallback_file := path_join CACHE_DIR (lit "en_gb.json") in
  ex ← path_exists fallback_file;
  if negb ex then raise FallbackNotFound
  else
    fallback_data ← load_json fallback_file;
    fallback_sleep_msg ← json_get fallback_data SLEEP_KEY DEFAULT_SLEEP_MSG;
    _ ← for_each language_codes (process_one output_dir fallback_sleep_msg);
    mret language_codes.

(** The whole function; its result is the list the warning prints. *)
Definition process_sleep_messages (output_path : pystr)
  : M (list (pystr * pystr)) :=
  language_codes ← write_outputs output_path;
  check_unmodified output_path language_codes [].

End World.

(** ** The downloader (downloader.py) *)

(** An entry of the repository listing: a dict. *)
Abbreviation file_info := (gmap pystr pystr).

(** What [session.get(url)] comes to: the request fails (refused, timed
    out), or a reply arrives with a status and a body whose text can be
    read or not. *)
Inductive http_reply :=
| ConnectionFails
| Reply (status : N) (body : option pystr).

(** What a task handed to [asyncio.gather(..., return_exceptions=True)]
    leaves in [results]. *)
Inductive task_result :=
| Returned (b : bool)
| Raised (e : error).

(** A [download_file] coroutine between two suspension points. *)
Inductive task :=
| Start (info : file_info)
| Parsed (file_path : pystr) (data : json)
| Opened (file_path : pystr) (data : json)
| Done (r : task_result).

(** [s.endswith(suffix)]. *)
Definition ends_with (suffix s : pystr) : bool :=
  starts_with (rev suffix) (rev s).

Definition NAME : pystr := lit "name".
Definition DOWNLOAD_URL : pystr := lit "download_url".

Section Downloader.

Variable path_join : pystr -> pystr -> pystr.
Variable disk : pystr -> disk_outcome.
Variable http_get : pystr -> http_reply.
(** [json.loads]. *)
Variable json_loads : pystr -> option json.

(** Lines 11-18 of [download_file]: the two keys (outside the [try]), the
    request, [raise_for_status], the text and [json.loads]. *)
Definition fetch (cache_dir : pystr) (info : file_info)
  : task_result + pystr * json :=
  match info !! NAME with
  | None => inl (Raised KeyError)
  | Some file_name =>
    match info !! DOWNLOAD_URL with
    | None => inl (Raised KeyError)
    | Some file_url =>
      match http_get file_url with
      | ConnectionFails => inl (Returned false)
      | Reply status body =>
        if 400 <=? status then inl (Returned false)
        else
          match body with
          | None => inl (Returned false)
          | Some text =>
            match json_loads text with
            | None => inl (Returned false)
            | Some data => inr (path_join cache_dir file_name, data)
            end
          end
      end
    end
  end.

(** [download_file], run from its call to its return: lines 20-25 write
    the file, and [except Exception] turns a failure into [False]. *)
Definition download_file (info : file_info) (cache_dir : pystr) (fs : fsys)
  : task_result * fsys :=
  match fetch cache_dir info with
  | inl r => (r, fs)
  | inr (file_path, data) =>
    match disk file_path with
    | OpenFails => (Returned false, fs)
    | WriteFails => (Returned false, set_file file_path Garbage fs)
    | WriteOk => (Returned true, set_file file_path (Text data) fs)
    end
  end.

(** One step of a coroutine, from a suspension point to the next. *)
Definition step_task (cache_dir : pystr) (t : task) (fs : fsys)
  : task * fsys :=
  match t with
  | Start info =>
    match fetch cache_dir info with
    | inl r => (Done r, fs)
    | inr (file_path, data) => (Parsed file_path data, fs)
    end
  | Parsed file_path data =>
    match disk file_path with
    | OpenFails => (Done (Returned false), fs)
    | _ => (Opened file_path data, set_file file_path Garbage fs)
    end
  | Opened file_path data =>
    match disk file_path with
    | WriteOk => (Done (Returned true), set_file file_path (Text data) fs)
    | _ => (Done (Returned false), fs)
    end
  | Done r => (Done r, fs)
  end.

Definition is_done (t : task) : bool :=
  match t with Done _ => true | _ => false end.

(** The event loop runs one step of one unfinished task at a time, in any
    order. *)
Inductive loop_step (cache_dir : pystr)
  : list task * fsys -> list task * fsys -> Prop :=
| loop_step_at i t ts fs :
    ts !! i = Some t -> is_done t = false ->
    loop_step cache_dir (ts, fs)
      (<[i := (step_task cache_dir t fs).1]> ts,
       (step_task cache_dir t fs).2).

(** [result is True]. *)
Definition is_true (r : task_result) : bool :=
  match r with Returned true => true | _ => false end.

(** [sum(1 for result in results if result is True)]. *)
Definition count_true (results : list task_result) : nat :=
  length (filter (fun r => is_true r = true) results).

(** [gather] with the tasks run one after the other. *)
Fixpoint gather (json_files : list file_info) (cache_dir : pystr)
    (fs : fsys) : list task_result * fsys :=
  match json_files with
  | [] => ([], fs)
  | info :: rest =>
    let '(r, fs1) := download_file info cache_dir fs in
    let '(results, fs2) := gather rest cache_dir fs1 in
    (r :: results, fs2)
  end.

Definition download_all_files (json_files : list file_info)
    (cache_dir : pystr) (fs : fsys) : nat * fsys :=
  let '(results, fs') := gather json_files cache_dir fs in
  (count_true results, fs').

(** What the loop leaves in [results] when all its tasks are done. *)
Definition results_of (ts : list task) : list task_result :=
  omap (fun t => match t with Done r => Some r | _ => None end) ts.

(** ** [get_language_files] (languages.py, lines 66-97) *)

(** The repository listing as [requests.get] finds it. *)
Variable listing : option (list file_info).

(** Line 83, for one entry. *)
Definition is_json_file (f : file_info) : error + bool :=
  match f !! NAME with
  | None => inl ErrorDownloading
  | Some name =>
    inr (ends_with DOT_JSON name && negb (str_eqb name (lit "README.md")))
  end.

Fixpoint select_json_files (files : list file_info)
  : error + list file_info :=
  match files with
  | [] => inr []
  | f :: rest =>
    match is_json_file f with
    | inl e => inl e
    | inr keep =>
      match select_json_files rest with
      | inl e => inl e
      | inr json_files => inr (if keep then f :: json_files else json_files)
      end
    end
  end.

(** [asyncio.run(download_all_files(json_files, cache_dir))]. *)
Definition run_downloads (json_files : list file_info) (cache_dir : pystr)
  : M nat := fun fs =>
  let '(successful, fs') := download_all_files json_files cache_dir fs in
  (inr successful, fs').

Definition get_language_files : M unit :=
  let cache_dir := CACHE_DIR in
  _ ← mkdir cache_dir;
  files ← lift (match listing with
                | None => inl FailedToFetchContents
                | Some files => inr files
                end);
  json_files ← lift (select_json_files files);
  _ ← run_downloads json_files cache_dir;
  mret tt.

(** ** [main] (main.py) *)

Variable uni_decimal : N -> bool.
Variable uni_alpha : N -> bool.
Variable uni_digit : N -> bool.
Variable wiki : page.

Definition main (output_path : pystr) (skip_download : bool)
  : M (list (pystr * pystr)) :=
  _ ← (if negb skip_download then get_language_files else mret tt);
  process_sleep_messages uni_decimal uni_alpha uni_digit path_join disk wiki
    (output_path ++ lit "/lang").

End Downloader.

(** ** Occurrences

    [occurs L s]: some word of the language [L] stands in [s] as a
    contiguous substring.  [contains old s] is the literal case. *)

Definition occurs (L : pystr -> Prop) (s : pystr) : Prop :=
  exists pre w post, s = pre ++ w ++ post /\ L w.

Definition contains (old s : pystr) : Prop := occurs (eq old) s.

(** The words of [%\d+\$s]. *)
Definition indexed_word (uni_decimal : N -> bool) (w : pystr) : Prop :=
  exists ds, w = PERCENT :: ds ++ [DOLLAR; LOWER_S] /\ ds <> [] /\
             Forall (fun c => re_digit uni_decimal c = true) ds.

(** [matcher] finds no match at the head of [t]. *)
Definition unmatched (matcher : pystr -> option nat) (t : pystr) : Prop :=
  forall n, matcher t <> Some (S n).

(** No placeholder left: no "%s", no "%d", no percent-digits-dollar-s. *)
Definition placeholder_free (uni_decimal : N -> bool) (msg : pystr) : Prop :=
  ~ contains (lit "%s") msg /\ ~ contains (lit "%d") msg /\
  ~ occurs (indexed_word uni_decimal) msg.

(** The file at [p] is an output document: one key, the sleep message,
    with no placeholder left in it. *)
Definition output_document (uni_decimal : N -> bool) (fs : fsys)
    (p : pystr) : Prop :=
  exists msg, files fs !! p = Some (Text (JObject {[ SLEEP_KEY := msg ]})) /\
              placeholder_free uni_decimal msg.

(** A percent sign with an s or a d at some later position. *)
Definition percent_then_s_or_d (sleep_msg : pystr) : Prop :=
  exists i j c, (i < j)%nat /\ sleep_msg !! i = Some PERCENT /\
                sleep_msg !! j = Some c /\ (c = LOWER_S \/ c = LOWER_D).

(** The decision procedure for [percent_then_s_or_d]. *)
Fixpoint later_s_or_d (sleep_msg : pystr) : bool :=
  match sleep_msg with
  | [] => false
  | c :: tl =>
    ((c =? PERCENT) && (char_in LOWER_S tl || char_in LOWER_D tl))
    || later_s_or_d tl
  end.

(** The entry the pass appends for a language code, if any, when it can
    read the file. *)
Definition flagged_entry (path_join : pystr -> pystr -> pystr) (fs : fsys)
    (output_dir lang_code : pystr)
  : option (pystr * pystr) :=
  match files fs !! path_join output_dir (lang_code ++ DOT_JSON) with
  | Some (Text (JObject d)) =>
    let sleep_msg := default [] (d !! SLEEP_KEY) in
    if has_placeholder sleep_msg then Some (lang_code, sleep_msg) else None
  | _ => None
  end.

(** Letters only, two at least. *)
Definition alpha_token (uni_alpha : N -> bool) (s : pystr) : Prop :=
  (2 <= length s)%nat /\ Forall (fun c => isalpha_char uni_alpha c = true) s.

(** One such token, or two joined by one underscore. *)
Definition language_identifier (uni_alpha : N -> bool) (code : pystr)
  : Prop :=
  alpha_token uni_alpha code \/
  exists a b, code = a ++ UNDERSCORE :: b /\
              alpha_token uni_alpha a /\ alpha_token uni_alpha b.

(** The test the code makes of a cell without the Java-Edition marker
    (languages.py, lines 50-56). *)
Definition plain_code_test (uni_alpha : N -> bool) (language_code : pystr)
  : bool :=
  ((str_count [UNDERSCORE] language_code =? 0)%nat &&
   str_isalpha uni_alpha language_code &&
   (2 <=? length language_code)%nat) ||
  ((str_count [UNDERSCORE] language_code =? 1)%nat &&
   (length (str_split [UNDERSCORE] language_code) =? 2)%nat &&
   forallb (fun part => str_isalpha uni_alpha part &&
                        (2 <=? length part)%nat)
           (str_split [UNDERSCORE] language_code)).

(** Row [i] of the table gives the code [c]. *)
Definition yields (uni_alpha uni_digit : N -> bool)
    (rows : list (list pystr)) (i : nat) (c : pystr) : Prop :=
  exists row, rows !! i = Some row /\
              row_code uni_alpha uni_digit row = Some c.

Definition write_ok (o : disk_outcome) : bool :=
  match o with WriteOk => true | _ => false end.

(** What is still to run of a coroutine, in steps. *)
Definition remaining (t : task) : nat :=
  match t with
  | Start _ => 3
  | Parsed _ _ => 2
  | Opened _ _ => 1
  | Done _ => 0
  end.

Fixpoint work (ts : list task) : nat :=
  match ts with
  | [] => 0
  | t :: rest => remaining t + work rest
  end.

Section DownloaderSpec.

Variable path_join : pystr -> pystr -> pystr.
Variable disk : pystr -> disk_outcome.
Variable http_get : pystr -> http_reply.
Variable json_loads : pystr -> option json.
Variable cache_dir : pystr.

(** The body of the reply is there and is JSON: the name and the URL are
    in the entry, the request is answered with a status below 400, the
    text can be read and [json.loads] takes it. *)
Definition body_parses (info : file_info) : bool :=
  match info !! NAME, info !! DOWNLOAD_URL with
  | Some _, Some file_url =>
    match http_get file_url with
    | Reply status (Some text) =>
      (status <? 400) && bool_decide (is_Some (json_loads text))
    | _ => false
    end
  | _, _ => false
  end.

(** The descriptor succeeds: its body parses and the file gets written. *)
Definition succeeds (info : file_info) : bool :=
  body_parses info &&
  match info !! NAME with
  | Some file_name => write_ok (disk (path_join cache_dir file_name))
  | None => false
  end.

(** What a descriptor's task ends with; the files play no part in it. *)
Definition outcome (info : file_info) : task_result :=
  match fetch path_join http_get json_loads cache_dir info with
  | inl r => r
  | inr (file_path, _) => Returned (write_ok (disk file_path))
  end.

(** What a task that is under way ends with. *)
Definition finish (t : task) : task_result :=
  match t with
  | Start info => outcome info
  | Parsed file_path _ | Opened file_path _ =>
    Returned (write_ok (disk file_path))
  | Done r => r
  end.

End DownloaderSpec.

(** The request of a descriptor fails: no reply, a status from 400 on, a
    body that cannot be read, or a body that is not JSON. *)
Definition request_fails (http_get : pystr -> http_reply)
    (json_loads : pystr -> option json) (info : file_info) : Prop :=
  exists file_url,
    info !! DOWNLOAD_URL = Some file_url /\
    (http_get file_url = ConnectionFails \/
     exists status body,
       http_get file_url = Reply status body /\
       (400 <= status \/ body = None \/
        exists text, body = Some text /\ json_loads text = None)).

(** The message lines 128-143 settle on for a language: the one of its
    own file when the file has the key, else the one of the fallback
    file, else the built-in one. *)
Definition resolved_message (lang_data : option doc) (fallback_data : doc)
  : pystr :=
  let fallback_sleep_msg :=
    default DEFAULT_SLEEP_MSG (fallback_data !! SLEEP_KEY) in
  match lang_data with
  | Some d => default fallback_sleep_msg (d !! SLEEP_KEY)
  | None => fallback_sleep_msg
  end.

(** What the cache holds for a language when the run starts: a JSON
    object [d] at the path of its file ([Some d]), or nothing at that
    path, which is not the output directory either ([None]). *)
Definition cached_doc (path_join : pystr -> pystr -> pystr) (fs : fsys)
    (output_path lang_code : pystr) (lang_data : option doc) : Prop :=
  let lang_file := path_join CACHE_DIR (lang_code ++ DOT_JSON) in
  match lang_data with
  | Some d => files fs !! lang_file = Some (Text (JObject d))
  | None => files fs !! lang_file = None /\ (lang_file ∉ dirs fs) /\
            lang_file <> output_path
  end.

(** How far the task of a descriptor has come, and what it has left at
    its destination: nothing before the file is opened, an empty file
    while it is open, the parsed body once the write is done. *)
Definition task_at (path_join : pystr -> pystr -> pystr)
    (disk : pystr -> disk_outcome) (http_get : pystr -> http_reply)
    (json_loads : pystr -> option json) (cache_dir : pystr)
    (fs : fsys) (info : file_info) (t : task) : Prop :=
  match fetch path_join http_get json_loads cache_dir info with
  | inl r => t = Start info \/ t = Done r
  | inr (file_path, data) =>
    t = Start info \/ t = Parsed file_path data \/
    (t = Opened file_path data /\ files fs !! file_path = Some Garbage) \/
    (t = Done (Returned true) /\
     files fs !! file_path = Some (Text data)) \/
    (t = Done (Returned false) /\ disk file_path <> WriteOk)
  end.

(** Every task of the loop is at its place. *)
Definition all_at (path_join : pystr -> pystr -> pystr)
    (disk : pystr -> disk_outcome) (http_get : pystr -> http_reply)
    (json_loads : pystr -> option json) (cache_dir : pystr)
    (json_files : list file_info) (st : list task * fsys) : Prop :=
  length st.1 = length json_files /\
  forall i info t, json_files !! i = Some info -> st.1 !! i = Some t ->
    task_at path_join disk http_get json_loads cache_dir st.2 info t.

(** No two descriptors of the batch are written to the same path. *)
Definition distinct_destinations (path_join : pystr -> pystr -> pystr)
    (http_get : pystr -> http_reply) (json_loads : pystr -> option json)
    (cache_dir : pystr) (json_files : list file_info) : Prop :=
  forall i j info_i info_j file_path data_i data_j,
    json_files !! i = Some info_i -> json_files !! j = Some info_j ->
    fetch path_join http_get json_loads cache_dir info_i
      = inr (file_path, data_i) ->
    fetch path_join http_get json_loads cache_dir info_j
      = inr (file_path, data_j) ->
    i = j.

(** The name of a listing entry ends in ".json". *)
Definition has_json_name (f : file_info) : bool :=
  match f !! NAME with
  | Some name => ends_with DOT_JSON name
  | None => false
  end.

Definition json_named (f : file_info) : Prop :=
  exists stem, f !! NAME = Some (stem ++ DOT_JSON).

(** ** Inputs for the examples *)

(** A simple way to join a directory and a file name, for the examples. *)
Definition slash_join (dir name : pystr) : pystr := dir ++ lit "/" ++ name.

Definition fs_of (l : list (pystr * content)) : fsys :=
  {| files := list_to_map l; dirs := ∅ |}.

(** A row of the language table with the index in its first cell and the
    code in its fifth, for the examples. *)
Definition table_row (index code : pystr) : list pystr :=
  [index; lit "English"; lit "English"; lit "United States"; code;
   lit "eng"].

(** Two descriptors for the examples and a network that serves the first
    and has nothing at the second. *)
Definition descriptor (name url : pystr) : file_info :=
  {[ NAME := name; DOWNLOAD_URL := url ]}.

Definition example_get (url : pystr) : http_reply :=
  if str_eqb url (lit "https://example.org/en_gb.json")
  then Reply 200 (Some (lit "{}"))
  else Reply 404 (Some (lit "Not Found")).

Definition example_loads (text : pystr) : option json :=
  if str_eqb text (lit "{}") then Some (JObject ∅) else None.

Definition example_files : list file_info :=
  [descriptor (lit "en_gb.json") (lit "https://example.org/en_gb.json");
   descriptor (lit "fr_fr.json") (lit "https://example.org/fr_fr.json")].

(** * Facts about the scan *)

Section ScanFacts.

Variable matcher : pystr -> option nat.
Variable repl : pystr.

Local Abbreviation scan := (scan_sub matcher repl).

Lemma scan_from_skipn k s :
  scan_from matcher repl k s = scan (skipn k s).
Proof.
  revert k; induction s as [|c tl IH]; intros [|k]; simpl; auto.
Qed.

Lemma scan_nil : scan [] = [].
Proof. reflexivity. Qed.

Lemma scan_cons c tl :
  scan (c :: tl) =
  match matcher (c :: tl) with
  | Some (S n) => repl ++ scan (skipn n tl)
  | _ => c :: scan tl
  end.
Proof.
  unfold scan_sub at 1; simpl.
  destruct (matcher (c :: tl)) as [[|n]|]; auto.
  now rewrite scan_from_skipn.
Qed.

(** No match at any position: the subject comes back as it is. *)
Lemma scan_no_match s :
  (forall pre post, s = pre ++ post -> matcher post = None) ->
  scan s = s.
Proof.
  induction s as [|c tl IH]; intros H; [reflexivity|].
  rewrite scan_cons, (H [] (c :: tl) eq_refl).
  f_equal. apply IH. intros pre post ->.
  apply (H (c :: pre) post). reflexivity.
Qed.

(** The first match: what stands before it is copied, the match becomes
    the replacement, and the scan goes on after it. *)
Lemma scan_first pre w post n :
  matcher (w ++ post) = Some (S n) -> length w = S n ->
  (forall p1 p2, pre = p1 ++ p2 -> p2 <> [] ->
     unmatched matcher (p2 ++ w ++ post)) ->
  scan (pre ++ w ++ post) = pre ++ repl ++ scan post.
Proof.
  intros Hm Hlen. induction pre as [|c pre IH]; intros Hpre.
  - destruct w as [|x w]; [discriminate|].
    change ([] ++ (x :: w) ++ post) with (x :: w ++ post).
    rewrite scan_cons. change (x :: w ++ post) with ((x :: w) ++ post).
    rewrite Hm. injection Hlen as <-. now rewrite drop_app_length.
  - change ((c :: pre) ++ w ++ post) with (c :: pre ++ w ++ post).
    rewrite scan_cons.
    assert (Hc : unmatched matcher (c :: pre ++ w ++ post))
      by now apply (Hpre [] (c :: pre)).
    assert (Htl : scan (pre ++ w ++ post) = pre ++ repl ++ scan post).
    { apply IH. intros p1 p2 ->. apply (Hpre (c :: p1) p2). reflexivity. }
    destruct (matcher (c :: pre ++ w ++ post)) as [[|k]|] eqn:E;
      [now rewrite Htl | now destruct (Hc k) | now rewrite Htl].
Qed.

(** A word free of the replacement's first character that heads the
    output also heads the input. *)
Lemma scan_prefix q r w :
  repl = q :: r -> q ∉ w ->
  forall s post, scan s = w ++ post -> exists post', s = w ++ post'.
Proof.
  intros Hr. induction w as [|x w IH]; intros Hq s post Hs.
  - exists s. reflexivity.
  - destruct s as [|c tl]; [discriminate|].
    rewrite scan_cons in Hs.
    assert (Hcopy : c :: scan tl = (x :: w) ++ post ->
                    exists post', c :: tl = (x :: w) ++ post').
    { simpl. intros [= -> Htl].
      destruct (IH ltac:(set_solver) tl post Htl) as [post' ->].
      now exists post'. }
    destruct (matcher (c :: tl)) as [[|n]|]; auto.
    rewrite Hr in Hs. simpl in Hs. injection Hs as -> _.
    exfalso. apply Hq. left.
Qed.

(** A window of [r ++ x] lies in [x], is empty, or meets [r]. *)
Lemma window_app (r x pre w post : pystr) :
  pre ++ w ++ post = r ++ x ->
  (exists pre', x = pre' ++ w ++ post) \/ w = [] \/
  (exists c, c ∈ w /\ c ∈ r).
Proof.
  revert pre; induction r as [|a r IH]; intros pre H.
  - left. now exists pre.
  - destruct pre as [|p pre].
    + destruct w as [|b w]; [auto|].
      right; right. simpl in H. injection H as -> _.
      exists a. split; left.
    + simpl in H. injection H as -> H.
      destruct (IH _ H) as [?|[?|(c & ? & ?)]]; auto.
      right; right. exists c. split; [auto | now right].
Qed.

Section Language.

Variable L : pystr -> Prop.
Hypothesis L_nonempty : forall w, L w -> w <> [].
Hypothesis L_apart : forall w c, L w -> c ∈ repl -> c ∉ w.
Hypothesis repl_nonempty : repl <> [].

(** An occurrence of [L] in the output is an occurrence in the input, at
    a place where the pattern did not match. *)
Lemma occurs_scan s :
  occurs L (scan s) ->
  exists pre w post, s = pre ++ w ++ post /\ L w /\ unmatched matcher (w ++ post).
Proof.
  remember (length s) as n eqn:Hn. revert s Hn.
  induction n as [n IH] using lt_wf_ind. intros s -> (pre & w & post & Hs & Hw).
  destruct s as [|c tl].
  { rewrite scan_nil in Hs. destruct pre, w; try discriminate.
    now apply L_nonempty in Hw. }
  rewrite scan_cons in Hs.
  assert (Hcopy : c :: scan tl = pre ++ w ++ post ->
            (forall k, matcher (c :: tl) <> Some (S k)) ->
            exists pre w post,
              c :: tl = pre ++ w ++ post /\ L w /\ unmatched matcher (w ++ post)).
  { intros Hc Hm. destruct pre as [|p pre].
    - assert (Hr : exists q r, repl = q :: r)
        by (destruct repl; [easy | eauto]).
      destruct Hr as (q & r & Hr).
      assert (Hq : q ∉ w) by (apply L_apart; [easy | rewrite Hr; left]).
      assert (Hsc : scan (c :: tl) = w ++ post).
      { rewrite scan_cons. simpl in Hc.
        destruct (matcher (c :: tl)) as [[|k]|];
          [exact Hc | now destruct (Hm k) | exact Hc]. }
      destruct (scan_prefix q r w Hr Hq _ _ Hsc) as [post' E].
      exists [], w, post'. rewrite <- E. auto.
    - simpl in Hc. injection Hc as -> Hc.
      destruct (IH (length tl) ltac:(simpl; lia) tl eq_refl)
        as (pre' & w' & post' & -> & ? & ?).
      { now exists pre, w, post. }
      now exists (p :: pre'), w', post'. }
  destruct (matcher (c :: tl)) as [[|k]|] eqn:Em;
    try (apply Hcopy; [easy | congruence]).
  symmetry in Hs.
  destruct (window_app _ _ _ _ _ Hs) as [[pre' E]|[E|(x & Hx & Hxr)]].
  - destruct (IH (length (skipn k tl))
                ltac:(rewrite length_skipn; simpl; lia) _ eq_refl)
      as (pre'' & w' & post' & E' & ? & ?).
    { now exists pre', w, post. }
    exists (c :: firstn k tl ++ pre''), w', post'. split; [|auto].
    simpl. rewrite <- app_assoc, <- E', firstn_skipn. reflexivity.
  - now apply L_nonempty in Hw.
  - now destruct (L_apart w x Hw Hxr).
Qed.

(** A pass keeps a subject free of [L] free of it. *)
Lemma scan_keeps_free s : ~ occurs L s -> ~ occurs L (scan s).
Proof.
  intros Hfree Hocc. apply Hfree.
  destruct (occurs_scan s Hocc) as (pre & w & post & -> & Hw & _).
  now exists pre, w, post.
Qed.

(** A pass whose pattern matches wherever a word of [L] starts leaves none. *)
Lemma scan_clears s :
  (forall w post, L w -> exists n, matcher (w ++ post) = Some (S n)) ->
  ~ occurs L (scan s).
Proof.
  intros Hm Hocc.
  destruct (occurs_scan s Hocc) as (pre & w & post & _ & Hw & Hun).
  destruct (Hm w post Hw) as [n E]. now apply (Hun n).
Qed.

End Language.

End ScanFacts.

(** * Facts about the matchers *)

Lemma starts_with_app old post : starts_with old (old ++ post) = true.
Proof.
  induction old as [|a old IH]; simpl; [reflexivity|].
  now rewrite N.eqb_refl, IH.
Qed.

Lemma starts_with_true old s :
  starts_with old s = true -> exists post, s = old ++ post.
Proof.
  revert s; induction old as [|a old IH]; intros s H.
  - now exists s.
  - destruct s as [|b s]; [discriminate|]. simpl in H.
    apply andb_prop in H as [Hab H]. apply N.eqb_eq in Hab as ->.
    destruct (IH _ H) as [post ->]. now exists post.
Qed.

Lemma str_in_eq sub s :
  str_in sub s =
  starts_with sub s || match s with [] => false | _ :: tl => str_in sub tl end.
Proof. destruct s; reflexivity. Qed.

Lemma str_in_contains old s : str_in old s = true <-> contains old s.
Proof.
  split.
  - induction s as [|c tl IH]; simpl; intros H;
      apply orb_prop in H as [H|H]; try discriminate.
    + apply starts_with_true in H as [post ->]. now exists [], old, post.
    + apply starts_with_true in H as [post ->]. now exists [], old, post.
    + destruct (IH H) as (pre & w & post & -> & <-).
      now exists (c :: pre), old, post.
  - intros (pre & w & post & -> & <-).
    induction pre as [|p pre IH]; simpl.
    + rewrite str_in_eq, starts_with_app. reflexivity.
    + rewrite IH. apply orb_true_r.
Qed.

Lemma literal_match_app old post :
  literal_match old (old ++ post) = Some (length old).
Proof. unfold literal_match. now rewrite starts_with_app. Qed.

Lemma literal_match_absent old s :
  ~ contains old s ->
  forall pre post, s = pre ++ post -> literal_match old post = None.
Proof.
  intros Hno pre post ->. unfold literal_match.
  destruct (starts_with old post) eqn:E; [|reflexivity].
  apply starts_with_true in E as [post' ->].
  destruct Hno. now exists pre, old, post'.
Qed.

(** Replacing a pattern that does not occur changes nothing. *)
Lemma str_replace_absent old new s :
  old <> [] -> ~ contains old s -> str_replace old new s = s.
Proof.
  intros Hold Hno. destruct old as [|a old]; [easy|].
  apply scan_no_match, literal_match_absent, Hno.
Qed.

(** The leftmost occurrence is the one replaced, and the rest of the
    string is treated the same way. *)
Lemma str_replace_first old new pre post :
  old <> [] ->
  (forall p1 p2, pre = p1 ++ p2 -> p2 <> [] ->
     starts_with old (p2 ++ old ++ post) = false) ->
  str_replace old new (pre ++ old ++ post)
  = pre ++ new ++ str_replace old new post.
Proof.
  intros Hold Hpre. destruct old as [|a old]; [easy|].
  apply (scan_first _ _ pre (a :: old) post (length old));
    [apply literal_match_app | reflexivity|].
  intros p1 p2 E Hp2 n. unfold literal_match.
  now rewrite (Hpre p1 p2 E Hp2).
Qed.

Section MatchFacts.

Variable uni_decimal : N -> bool.

Local Abbreviation digit := (re_digit uni_decimal).

Lemma digit_run_app ds rest :
  Forall (fun c => digit c = true) ds ->
  (forall c tl, rest = c :: tl -> digit c = false) ->
  digit_run uni_decimal (ds ++ rest) = length ds.
Proof.
  intros Hds Hrest. induction Hds as [|c ds Hc _ IH]; simpl.
  - destruct rest as [|c tl]; [reflexivity|].
    simpl. now rewrite (Hrest c tl eq_refl).
  - now rewrite Hc, IH.
Qed.

Lemma digit_run_firstn s :
  Forall (fun c => digit c = true) (firstn (digit_run uni_decimal s) s).
Proof.
  induction s as [|c tl IH]; simpl; [constructor|].
  destruct (digit c) eqn:E; simpl; constructor; auto.
Qed.

Lemma digit_run_le s : (digit_run uni_decimal s <= length s)%nat.
Proof.
  induction s as [|c tl IH]; simpl; [lia|].
  destruct (digit c); simpl; lia.
Qed.

(** The matcher finds every word of the pattern ... *)
Lemma indexed_match_word w post :
  indexed_word uni_decimal w ->
  indexed_match uni_decimal (w ++ post) = Some (length w).
Proof.
  intros (ds & -> & Hne & Hds). simpl.
  rewrite <- app_assoc.
  rewrite (digit_run_app ds _ Hds) by (simpl; now intros c tl [= <- _]).
  destruct ds as [|d ds]; [easy|].
  change (length (d :: ds)) with (S (length ds)). cbv beta iota.
  change (S (length ds)) with (length (d :: ds)) at 1.
  rewrite drop_app_length. simpl.
  rewrite length_app. simpl. f_equal.
Qed.

(** ... and nothing else. *)
Lemma indexed_match_some s n :
  indexed_match uni_decimal s = Some n ->
  exists w post, s = w ++ post /\ indexed_word uni_decimal w /\ n = length w.
Proof.
  destruct s as [|c tl]; [discriminate|]. simpl.
  destruct (c =? PERCENT) eqn:Ec; [|discriminate].
  apply N.eqb_eq in Ec as ->.
  destruct (digit_run uni_decimal tl) as [|k] eqn:Ek; [discriminate|].
  destruct (skipn (S k) tl) as [|d [|e post]] eqn:Es; try discriminate.
  destruct ((d =? DOLLAR) && (e =? LOWER_S)) eqn:Ed; [|discriminate].
  apply andb_prop in Ed as [Hd He].
  apply N.eqb_eq in Hd as ->. apply N.eqb_eq in He as ->.
  intros [= <-].
  exists (PERCENT :: firstn (S k) tl ++ [DOLLAR; LOWER_S]), post.
  assert (Hlen : (S k <= length tl)%nat)
    by (rewrite <- Ek; apply digit_run_le).
  repeat split.
  - simpl. rewrite <- app_assoc. simpl. rewrite <- Es.
    now rewrite firstn_skipn.
  - exists (firstn (S k) tl). repeat split.
    + destruct tl; [discriminate Ek | discriminate].
    + rewrite <- Ek. apply digit_run_firstn.
  - simpl. rewrite length_app, firstn_length_le by exact Hlen. simpl. lia.
Qed.

Lemma indexed_match_absent s :
  ~ occurs (indexed_word uni_decimal) s ->
  forall pre post, s = pre ++ post -> indexed_match uni_decimal post = None.
Proof.
  intros Hno pre post ->.
  destruct (indexed_match uni_decimal post) as [n|] eqn:E; [|reflexivity].
  apply indexed_match_some in E as (w & post' & -> & Hw & _).
  destruct Hno. now exists pre, w, post'.
Qed.

Lemma re_sub_indexed_absent repl s :
  ~ occurs (indexed_word uni_decimal) s ->
  re_sub_indexed uni_decimal repl s = s.
Proof. intros Hno. apply scan_no_match, indexed_match_absent, Hno. Qed.

End MatchFacts.

(** * The passes and the placeholder languages *)

Lemma str_replace_clears old new s :
  old <> [] -> new <> [] -> (forall c, c ∈ new -> c ∉ old) ->
  ~ contains old (str_replace old new s).
Proof.
  intros Hold Hnew Hap. destruct old as [|a old]; [easy|].
  apply scan_clears; auto.
  - now intros w <-.
  - intros w c <-. apply Hap.
  - intros w post <-. exists (length old). apply literal_match_app.
Qed.

Lemma str_replace_keeps_free (L : pystr -> Prop) old new s :
  (forall w, L w -> w <> []) -> (forall w c, L w -> c ∈ new -> c ∉ w) ->
  old <> [] -> new <> [] ->
  ~ occurs L s -> ~ occurs L (str_replace old new s).
Proof.
  intros HL Hap Hold Hnew. destruct old as [|a old]; [easy|].
  now apply scan_keeps_free.
Qed.

Lemma indexed_word_nonempty u w : indexed_word u w -> w <> [].
Proof. now intros (ds & -> & _). Qed.

Lemma elem_of_questions c : c ∈ [QUESTION; QUESTION] -> c = QUESTION.
Proof.
  intros H. repeat (apply elem_of_cons in H as [H|H]; [exact H|]).
  inversion H.
Qed.

(** A literal without [?] shares no character with "??". *)
Lemma no_question (w : pystr) :
  forallb (fun c => negb (c =? QUESTION)) w = true ->
  forall c, c ∈ [QUESTION; QUESTION] -> c ∉ w.
Proof.
  intros Hw c Hc Hin. apply elem_of_questions in Hc as ->.
  rewrite forallb_forall in Hw. apply list_elem_of_In, Hw in Hin.
  now rewrite N.eqb_refl in Hin.
Qed.

Lemma indexed_word_no_question u w c :
  indexed_word u w -> c ∈ [QUESTION; QUESTION] -> c ∉ w.
Proof.
  intros (ds & -> & _ & Hds) Hc Hw.
  apply elem_of_questions in Hc as ->.
  apply elem_of_cons in Hw as [Hw|Hw]; [discriminate|].
  apply elem_of_app in Hw as [Hw|Hw].
  - rewrite Forall_forall in Hds. apply Hds in Hw. discriminate.
  - apply elem_of_cons in Hw as [Hw|Hw]; [discriminate|].
    apply elem_of_cons in Hw as [Hw|Hw]; [discriminate|]. inversion Hw.
Qed.

Lemma re_sub_indexed_clears u s :
  ~ occurs (indexed_word u) (re_sub_indexed u (lit "??") s).
Proof.
  apply scan_clears.
  - apply indexed_word_nonempty.
  - intros w c. apply indexed_word_no_question.
  - discriminate.
  - intros w post Hw. rewrite (indexed_match_word u w post Hw).
    destruct w as [|x w]; [now apply indexed_word_nonempty in Hw|].
    now exists (length w).
Qed.

Lemma contains_longer old old' s :
  contains old' old -> contains old s -> contains old' s.
Proof.
  intros (p1 & w1 & q1 & -> & <-) (p2 & w2 & q2 & -> & <-).
  exists (p2 ++ p1), old', (q1 ++ q2). split; [|reflexivity].
  now rewrite <- !app_assoc.
Qed.

(** The rewrite is the four passes one after the other; the test
    [if "%s/%s" in processed_msg] changes nothing. *)
Lemma rewrite_placeholders_passes u sleep_msg :
  rewrite_placeholders u sleep_msg =
  str_replace (lit "%d") (lit "??")
    (str_replace (lit "%s") (lit "??")
      (re_sub_indexed u (lit "??")
        (str_replace (lit "%s/%s") (lit "???") sleep_msg))).
Proof.
  unfold rewrite_placeholders.
  destruct (str_in (lit "%s/%s") sleep_msg) eqn:E; [reflexivity|].
  rewrite (str_replace_absent (lit "%s/%s")); [reflexivity|discriminate|].
  intros H. apply str_in_contains in H. congruence.
Qed.

Lemma rewrite_placeholders_free u sleep_msg :
  ~ contains (lit "%s") (rewrite_placeholders u sleep_msg) /\
  ~ contains (lit "%d") (rewrite_placeholders u sleep_msg) /\
  ~ occurs (indexed_word u) (rewrite_placeholders u sleep_msg).
Proof.
  rewrite rewrite_placeholders_passes.
  repeat split.
  - apply str_replace_keeps_free; try discriminate.
    + now intros w <-.
    + intros w c <-. revert c. now apply no_question.
    + apply str_replace_clears; try discriminate. now apply no_question.
  - apply str_replace_clears; try discriminate. now apply no_question.
  - apply str_replace_keeps_free; try discriminate.
    + apply indexed_word_nonempty.
    + intros w c. apply indexed_word_no_question.
    + apply str_replace_keeps_free; try discriminate.
      * apply indexed_word_nonempty.
      * intros w c. apply indexed_word_no_question.
      * apply re_sub_indexed_clears.
Qed.

(** * The placeholder rewrite *)

(** C1: the rewrite step is four passes in this order: every "%s/%s"
    becomes "???", then every indexed placeholder (percent, digits,
    dollar, s) becomes "??", then every "%s" left becomes "??", then every
    "%d" becomes "??".  So "%s/%s players sleeping" becomes
    "??? players sleeping" and "%1$s/%2$s players are sleeping" becomes
    "??/?? players are sleeping". *)
Theorem rewrite_placeholders_four_passes (uni_decimal : N -> bool) :
  (forall sleep_msg,
     rewrite_placeholders uni_decimal sleep_msg =
     str_replace (lit "%d") (lit "??")
       (str_replace (lit "%s") (lit "??")
         (re_sub_indexed uni_decimal (lit "??")
           (str_replace (lit "%s/%s") (lit "???") sleep_msg)))) /\
  rewrite_placeholders uni_decimal (lit "%s/%s players sleeping")
    = lit "??? players sleeping" /\
  rewrite_placeholders uni_decimal (lit "%1$s/%2$s players are sleeping")
    = lit "??/?? players are sleeping".
Proof.
  split; [apply rewrite_placeholders_passes|].
  split; vm_compute; reflexivity.
Qed.

(** The order matters: with the pass for "%s" run before the pass for
    "%s/%s", the pair is read as two single placeholders. *)
Lemma pair_pass_must_come_first :
  str_replace (lit "%s/%s") (lit "???")
    (str_replace (lit "%s") (lit "??") (lit "%s/%s players sleeping"))
  = lit "??/?? players sleeping".
Proof. vm_compute. reflexivity. Qed.

(** C3: the rewrite step is idempotent. *)
Theorem rewrite_placeholders_idempotent (uni_decimal : N -> bool)
    (sleep_msg : pystr) :
  rewrite_placeholders uni_decimal
    (rewrite_placeholders uni_decimal sleep_msg)
  = rewrite_placeholders uni_decimal sleep_msg.
Proof.
  destruct (rewrite_placeholders_free uni_decimal sleep_msg)
    as (Hs & Hd & Hi).
  set (out := rewrite_placeholders uni_decimal sleep_msg) in *.
  rewrite rewrite_placeholders_passes.
  assert (Hpair : ~ contains (lit "%s/%s") out).
  { intros H. apply Hs. revert H. apply contains_longer.
    now exists [], (lit "%s"), (lit "/%s"). }
  rewrite (str_replace_absent (lit "%s/%s")) by (discriminate || exact Hpair).
  rewrite re_sub_indexed_absent by exact Hi.
  rewrite (str_replace_absent (lit "%s")) by (discriminate || exact Hs).
  apply str_replace_absent; [discriminate | exact Hd].
Qed.

(** X2: a message without a percent sign comes back as it is. *)
Lemma rewrite_placeholders_plain (uni_decimal : N -> bool)
    (sleep_msg : pystr) :
  PERCENT ∉ sleep_msg ->
  rewrite_placeholders uni_decimal sleep_msg = sleep_msg.
Proof.
  intros Hno.
  assert (Hocc : forall L : pystr -> Prop,
            (forall w, L w -> PERCENT ∈ w) -> ~ occurs L sleep_msg).
  { intros L HL (pre & w & post & -> & Hw). apply Hno.
    apply elem_of_app. right. apply elem_of_app. left. now apply HL. }
  rewrite rewrite_placeholders_passes.
  rewrite (str_replace_absent (lit "%s/%s"))
    by (discriminate || (apply Hocc; intros w <-; left)).
  rewrite re_sub_indexed_absent
    by (apply Hocc; intros w (ds & -> & _); left).
  rewrite (str_replace_absent (lit "%s"))
    by (discriminate || (apply Hocc; intros w <-; left)).
  apply str_replace_absent; [discriminate|].
  apply Hocc. intros w <-. left.
Qed.

(** * The verification pass *)

Lemma char_in_elem_of c s : char_in c s = true <-> c ∈ s.
Proof.
  unfold char_in. induction s as [|x s IH]; simpl.
  - split; [discriminate | inversion 1].
  - rewrite elem_of_cons, <- IH, orb_true_iff, andb_true_r, N.eqb_eq.
    reflexivity.
Qed.

(** What line 183 tests: a percent sign somewhere and an s or a d
    somewhere, in any order. *)
Lemma has_placeholder_spec sleep_msg :
  has_placeholder sleep_msg = true <->
  PERCENT ∈ sleep_msg /\ (LOWER_S ∈ sleep_msg \/ LOWER_D ∈ sleep_msg).
Proof.
  unfold has_placeholder.
  now rewrite andb_true_iff, orb_true_iff, !char_in_elem_of.
Qed.

Section Verification.

Variable path_join : pystr -> pystr -> pystr.

Lemma check_unmodified_frame output_dir language_codes unmodified_files fs :
  (check_unmodified path_join output_dir language_codes unmodified_files
     fs).2 = fs.
Proof.
  revert unmodified_files.
  induction language_codes as [|lang_code rest IH]; intros acc;
    [reflexivity|].
  simpl. unfold mbind, M_bind, path_exists, load_json. simpl.
  destruct (_ || _); [|apply IH].
  destruct (files fs !! _) as [[[d|]|]|]; simpl; try reflexivity.
  destruct (has_placeholder _); apply IH.
Qed.

Lemma check_unmodified_report output_dir language_codes unmodified_files
    fs report fs' :
  check_unmodified path_join output_dir language_codes unmodified_files fs
    = (inr report, fs') ->
  report =
  unmodified_files ++ omap (flagged_entry path_join fs output_dir) language_codes.
Proof.
  revert unmodified_files.
  induction language_codes as [|lang_code rest IH]; intros acc.
  - simpl. intros [= <- _]. now rewrite app_nil_r.
  - simpl. unfold mbind, M_bind, path_exists, load_json, flagged_entry.
    simpl.
    destruct (_ || _) eqn:Eex.
    + destruct (files fs !! _) as [[[d|]|]|]; simpl; try discriminate.
      destruct (has_placeholder _).
      * intros H. apply IH in H. now rewrite <- app_assoc in H.
      * apply IH.
    + apply orb_false_elim in Eex as [Ef _].
      apply bool_decide_eq_false in Ef.
      destruct (files fs !! _) as [c|]; [destruct Ef; eauto|]. apply IH.
Qed.

End Verification.

Lemma percent_then_later sleep_msg :
  percent_then_s_or_d sleep_msg -> later_s_or_d sleep_msg = true.
Proof.
  intros (i & j & c & Hij & Hi & Hj & Hc). revert i j Hij Hi Hj.
  induction sleep_msg as [|x tl IH]; intros i j Hij Hi Hj; [easy|].
  simpl. apply orb_true_iff.
  destruct j as [|j]; [lia|]. simpl in Hj.
  destruct i as [|i].
  - left. injection Hi as ->. rewrite N.eqb_refl. simpl.
    apply orb_true_iff. rewrite !char_in_elem_of.
    apply list_elem_of_lookup_2 in Hj. destruct Hc; subst; auto.
  - right. apply (IH i j); [lia | exact Hi | exact Hj].
Qed.

(** C6, as the code has it: the pass flags "sleep 50%", where the s comes
    before the percent sign and neither an s nor a d comes after it. *)
Lemma flagged_with_s_before_percent :
  let fs := fs_of [(lit "out/en.json",
                    Text (JObject {[ SLEEP_KEY := lit "sleep 50%" ]}))] in
  check_unmodified slash_join (lit "out") [lit "en"] [] fs
    = (inr [(lit "en", lit "sleep 50%")], fs) /\
  ~ percent_then_s_or_d (lit "sleep 50%").
Proof.
  split; [vm_compute; reflexivity|].
  intros H. apply percent_then_later in H. vm_compute in H. discriminate.
Qed.

(** C6, amended: the pass flags an output file if and only if its sleep
    message holds a percent sign and holds an s or a d, at any positions;
    the flagged files are the pass's result and the files stay as they
    are. *)
Theorem check_unmodified_flags (path_join : pystr -> pystr -> pystr)
    (output_dir : pystr) (language_codes : list pystr) (fs fs' : fsys)
    (report : list (pystr * pystr)) :
  check_unmodified path_join output_dir language_codes [] fs
    = (inr report, fs') ->
  fs' = fs /\
  forall lang_code sleep_msg,
    (lang_code, sleep_msg) ∈ report <->
    lang_code ∈ language_codes /\
    (exists d,
       files fs !! path_join output_dir (lang_code ++ DOT_JSON)
         = Some (Text (JObject d)) /\
       sleep_msg = default [] (d !! SLEEP_KEY)) /\
    PERCENT ∈ sleep_msg /\ (LOWER_S ∈ sleep_msg \/ LOWER_D ∈ sleep_msg).
Proof.
  intros Hrun. split.
  { rewrite <- (check_unmodified_frame path_join output_dir language_codes
                  [] fs). now rewrite Hrun. }
  apply check_unmodified_report in Hrun. simpl in Hrun. subst report.
  intros lang_code sleep_msg. rewrite list_elem_of_omap. split.
  - intros (code & Hin & Hentry). unfold flagged_entry in Hentry.
    destruct (files fs !! _) as [[[d|]|]|] eqn:Ef; try discriminate.
    destruct (has_placeholder _) eqn:Eh; [|discriminate].
    injection Hentry as -> <-.
    apply has_placeholder_spec in Eh. eauto 6.
  - intros (Hin & (d & Ef & ->) & Hp). exists lang_code. split; [easy|].
    unfold flagged_entry. rewrite Ef.
    apply has_placeholder_spec in Hp. now rewrite Hp.
Qed.

Lemma check_unmodified_flags_witness :
  let fs := fs_of [(lit "out/en.json",
                    Text (JObject {[ SLEEP_KEY := lit "sleep 50%" ]}));
                   (lit "out/fr.json",
                    Text (JObject {[ SLEEP_KEY := lit "?? zzz" ]}))] in
  fs = fs /\
  forall lang_code sleep_msg,
    (lang_code, sleep_msg) ∈ [(lit "en", lit "sleep 50%")] <->
    lang_code ∈ [lit "en"; lit "fr"] /\
    (exists d,
       files fs !! slash_join (lit "out") (lang_code ++ DOT_JSON)
         = Some (Text (JObject d)) /\
       sleep_msg = default [] (d !! SLEEP_KEY)) /\
    PERCENT ∈ sleep_msg /\ (LOWER_S ∈ sleep_msg \/ LOWER_D ∈ sleep_msg).
Proof.
  apply (check_unmodified_flags slash_join (lit "out")
           [lit "en"; lit "fr"]).
  vm_compute. reflexivity.
Defined.

(** C9: the verification pass changes no file: the file system after it
    is the file system before it, whatever it reports or raises; so the
    whole function leaves the files as the loop over the languages wrote
    them. *)
Theorem verification_pass_reads_only
    (uni_decimal uni_alpha uni_digit : N -> bool)
    (path_join : pystr -> pystr -> pystr) (disk : pystr -> disk_outcome)
    (wiki : page) (output_path : pystr) (language_codes : list pystr)
    (unmodified_files : list (pystr * pystr)) (fs : fsys) :
  (check_unmodified path_join output_path language_codes unmodified_files
     fs).2 = fs /\
  (process_sleep_messages uni_decimal uni_alpha uni_digit path_join disk
     wiki output_path fs).2
  = (write_outputs uni_decimal uni_alpha uni_digit path_join disk wiki
       output_path fs).2.
Proof.
  split; [apply check_unmodified_frame|].
  unfold process_sleep_messages, mbind, M_bind at 1.
  destruct (write_outputs _ _ _ _ _ _ _ fs) as [[e|codes] fs1];
    [reflexivity|].
  apply check_unmodified_frame.
Qed.

(** * The loop over the languages *)

Section Loop.

Variable uni_decimal : N -> bool.
Variable path_join : pystr -> pystr -> pystr.
Variable disk : pystr -> disk_outcome.

Lemma source_message_frame fallback_sleep_msg lang_code fs :
  (source_message path_join fallback_sleep_msg lang_code fs).2 = fs.
Proof.
  unfold source_message, mbind, M_bind, path_exists, load_json. simpl.
  destruct (_ || _); [|reflexivity].
  destruct (files fs !! _) as [[[d|]|]|]; reflexivity.
Qed.

Lemma process_one_writes output_dir fallback_sleep_msg lang_code fs fs' :
  process_one uni_decimal path_join disk output_dir fallback_sleep_msg
    lang_code fs = (inr tt, fs') ->
  exists sleep_msg,
    fs' = set_file (path_join output_dir (lang_code ++ DOT_JSON))
            (Text (JObject {[ SLEEP_KEY :=
                                rewrite_placeholders uni_decimal sleep_msg ]}))
            fs.
Proof.
  unfold process_one, mbind, M_bind at 1.
  pose proof (source_message_frame fallback_sleep_msg lang_code fs) as Hf.
  destruct (source_message _ _ _ fs) as [[e|sleep_msg] fs1]; [discriminate|].
  simpl in Hf. subst fs1. unfold dump_json.
  destruct (disk _); try discriminate.
  intros [= <-]. now exists sleep_msg.
Qed.

Lemma process_one_documents output_dir fallback_sleep_msg lang_code fs fs' :
  process_one uni_decimal path_join disk output_dir fallback_sleep_msg
    lang_code fs = (inr tt, fs') ->
  output_document uni_decimal fs'
    (path_join output_dir (lang_code ++ DOT_JSON)) /\
  forall p, output_document uni_decimal fs p ->
            output_document uni_decimal fs' p.
Proof.
  intros H. apply process_one_writes in H as [sleep_msg ->].
  assert (Hnew : output_document uni_decimal
            (set_file (path_join output_dir (lang_code ++ DOT_JSON))
               (Text (JObject {[ SLEEP_KEY :=
                  rewrite_placeholders uni_decimal sleep_msg ]})) fs)
            (path_join output_dir (lang_code ++ DOT_JSON))).
  { eexists. split; [apply lookup_insert_eq|].
    apply rewrite_placeholders_free. }
  split; [exact Hnew|].
  intros p Hp.
  destruct (decide (p = path_join output_dir (lang_code ++ DOT_JSON)))
    as [->|Hne]; [exact Hnew|].
  destruct Hp as (msg & Hmsg & Hfree). exists msg. split; [|exact Hfree].
  simpl. now rewrite lookup_insert_ne.
Qed.

Lemma for_each_documents output_dir fallback_sleep_msg language_codes fs fs' :
  for_each language_codes
    (process_one uni_decimal path_join disk output_dir fallback_sleep_msg)
    fs = (inr tt, fs') ->
  (forall lang_code, lang_code ∈ language_codes ->
     output_document uni_decimal fs'
       (path_join output_dir (lang_code ++ DOT_JSON))) /\
  forall p, output_document uni_decimal fs p ->
            output_document uni_decimal fs' p.
Proof.
  revert fs. induction language_codes as [|c rest IH]; intros fs.
  - simpl. intros [= <-]. split; [inversion 1 | auto].
  - simpl. unfold mbind, M_bind at 1.
    destruct (process_one _ _ _ _ _ c fs) as [[e|[]] fs1] eqn:E1;
      [discriminate|].
    intros Hrest. apply process_one_documents in E1 as [Hc Hkeep].
    apply IH in Hrest as [Hall Hkeep']. split.
    + intros lang_code Hin. apply elem_of_cons in Hin as [->|Hin]; auto.
    + auto.
Qed.

End Loop.

(** ** Making a directory *)

Lemma mkdir_inr p fs u fs' :
  mkdir p fs = (inr u, fs') ->
  fs' = {| files := files fs;
           dirs := {[p]} ∪ list_to_set (path_parents p) ∪ dirs fs |}.
Proof.
  unfold mkdir. destruct (existsb _ _); [discriminate|].
  destruct (files fs !! p); [discriminate|]. now intros [= _ <-].
Qed.

Lemma mkdir_inl p fs e fs' :
  mkdir p fs = (inl e, fs') ->
  fs' = fs /\ (e = NotADirectoryError \/ e = FileExistsError).
Proof.
  unfold mkdir. destruct (existsb _ _); [intros [= <- <-]; auto|].
  destruct (files fs !! p); [|discriminate]. intros [= <- <-]; auto.
Qed.

(** The call goes through when no regular file stands at the path or
    above it. *)
Lemma mkdir_makes p fs :
  files fs !! p = None ->
  (forall a, a ∈ path_parents p -> files fs !! a = None) ->
  mkdir p fs =
  (inr tt, {| files := files fs;
              dirs := {[p]} ∪ list_to_set (path_parents p) ∪ dirs fs |}).
Proof.
  intros Hp Habove. unfold mkdir.
  destruct (existsb _ _) eqn:E.
  - apply existsb_exists in E as (a & Ha & Hfile).
    apply list_elem_of_In, Habove in Ha. rewrite Ha in Hfile.
    apply bool_decide_eq_true in Hfile as [? ?]. discriminate.
  - now rewrite Hp.
Qed.

Section Run.

Variable uni_decimal : N -> bool.
Variable uni_alpha : N -> bool.
Variable uni_digit : N -> bool.
Variable path_join : pystr -> pystr -> pystr.
Variable disk : pystr -> disk_outcome.
Variable wiki : page.

Local Abbreviation write_outputs' :=
  (write_outputs uni_decimal uni_alpha uni_digit path_join disk wiki).
Local Abbreviation process_sleep_messages' :=
  (process_sleep_messages uni_decimal uni_alpha uni_digit path_join disk
     wiki).

Lemma write_outputs_documents output_path fs language_codes fs' :
  write_outputs' output_path fs = (inr language_codes, fs') ->
  forall lang_code, lang_code ∈ language_codes ->
    output_document uni_decimal fs'
      (path_join output_path (lang_code ++ DOT_JSON)).
Proof.
  unfold write_outputs, mbind, M_bind at 1.
  destruct (get_language_codes _ _ wiki) as [e|codes]; [discriminate|].
  simpl. unfold mbind, M_bind at 1.
  destruct (mkdir output_path fs) as [[e|[]] fs1]; [discriminate|].
  unfold mbind, M_bind at 1, path_exists. simpl.
  destruct (_ || _); [|discriminate]. simpl.
  unfold mbind, M_bind at 1, load_json. simpl.
  destruct (files fs1 !! _) as [[[d|]|]|]; try discriminate. simpl.
  unfold mbind, M_bind, mret, M_ret. simpl.
  match goal with
  | |- context [for_each codes ?body ?s] =>
    destruct (for_each codes body s) as [[e|[]] fs2] eqn:Eloop
  end; [discriminate|].
  intros [= <- <-]. now apply for_each_documents in Eloop as [Hall _].
Qed.


End Run.

(** C2: whatever the input message, what the rewrite step makes of it
    holds no "%s", no "%d" and no indexed placeholder (percent, digits,
    dollar, s); so when the loop over the languages ends, the file of
    every language code is an output document whose message holds none. *)
Theorem no_placeholder_left
    (uni_decimal uni_alpha uni_digit : N -> bool)
    (path_join : pystr -> pystr -> pystr) (disk : pystr -> disk_outcome)
    (wiki : page) (output_path : pystr) (fs : fsys) (sleep_msg : pystr) :
  placeholder_free uni_decimal (rewrite_placeholders uni_decimal sleep_msg)
  /\
  match write_outputs uni_decimal uni_alpha uni_digit path_join disk wiki
          output_path fs with
  | (inr language_codes, fs') =>
    forall lang_code, lang_code ∈ language_codes ->
      output_document uni_decimal fs'
        (path_join output_path (lang_code ++ DOT_JSON))
  | (inl _, _) => True
  end.
Proof.
  split; [apply rewrite_placeholders_free|].
  destruct (write_outputs _ _ _ _ _ _ _ fs) as [[e|codes] fs'] eqn:E;
    [exact I|].
  eapply write_outputs_documents, E.
Qed.




(** The run of the witness, evaluated: the error is the missing fallback,
    and the output directory and the one above it were made before the
    cache was looked at. *)
Example missing_fallback_run :
  process_sleep_messages (fun _ => false) (fun _ => false)
    (fun _ => false) slash_join (fun _ => WriteOk)
    (PageWithTable [table_row (lit "1") (lit "en_us")])
    (lit "pack/lang")
    (fs_of [(lit ".cache/languages/en_us.json",
             Text (JObject {[ SLEEP_KEY := lit "%s/%s asleep" ]}))])
  = (inl FallbackNotFound,
     {| files := {[ lit ".cache/languages/en_us.json" :=
                      Text (JObject {[ SLEEP_KEY := lit "%s/%s asleep" ]}) ]};
        dirs := {[ lit "pack"; lit "pack/lang" ]} |}).
Proof. vm_compute. reflexivity. Qed.

(** An output directory under the path of [en_gb.json]: making it makes a
    directory of that path, and opening a directory is refused. *)
Example fallback_made_a_directory :
  process_sleep_messages (fun _ => false) (fun _ => false)
    (fun _ => false) slash_join (fun _ => WriteOk)
    (PageWithTable [table_row (lit "1") (lit "en_us")])
    (lit ".cache/languages/en_gb.json/lang") (fs_of [])
  = (inl OSError,
     {| files := ∅;
        dirs := {[ lit ".cache"; lit ".cache/languages";
                   lit ".cache/languages/en_gb.json";
                   lit ".cache/languages/en_gb.json/lang" ]} |}).
Proof. vm_compute. reflexivity. Qed.

(** What [path_parents] gives on a relative path, on an absolute one and
    on one written with a doubled slash and a dot. *)
Example path_parents_run :
  path_parents (lit "pack/lang") = [lit "pack"] /\
  path_parents (lit "/srv/pack/lang") = [lit "/srv"; lit "/srv/pack"] /\
  path_parents (lit "./pack//lang/") = [lit "pack"] /\
  path_parents (lit "lang") = [].
Proof. vm_compute. repeat split. Qed.

(** A run that ends well: two languages, one with its own file in the
    cache and one that falls back to [en_gb.json]. *)
Example process_sleep_messages_run :
  process_sleep_messages (fun _ => false) (fun _ => false)
    (fun _ => false) slash_join (fun _ => WriteOk)
    (PageWithTable [table_row (lit "1") (lit "en_gb");
                    table_row (lit "2") (lit "fr_fr")])
    (lit "pack/lang")
    (fs_of [(lit ".cache/languages/en_gb.json",
             Text (JObject {[ SLEEP_KEY := lit "%s/%s players sleeping" ]}))])
  = (inr [],
     {| files :=
          {[ lit ".cache/languages/en_gb.json" :=
               Text (JObject {[ SLEEP_KEY := lit "%s/%s players sleeping" ]});
             lit "pack/lang/en_gb.json" :=
               Text (JObject {[ SLEEP_KEY := lit "??? players sleeping" ]});
             lit "pack/lang/fr_fr.json" :=
               Text (JObject {[ SLEEP_KEY := lit "??? players sleeping" ]}) ]};
        dirs := {[ lit "pack"; lit "pack/lang" ]} |}).
Proof. vm_compute. reflexivity. Qed.

(** * The downloader *)

Section DownloaderFacts.

Variable path_join : pystr -> pystr -> pystr.
Variable disk : pystr -> disk_outcome.
Variable http_get : pystr -> http_reply.
Variable json_loads : pystr -> option json.
Variable cache_dir : pystr.

Local Abbreviation body_parses := (body_parses http_get json_loads).
Local Abbreviation succeeds :=
  (succeeds path_join disk http_get json_loads cache_dir).
Local Abbreviation outcome :=
  (outcome path_join disk http_get json_loads cache_dir).
Local Abbreviation finish :=
  (finish path_join disk http_get json_loads cache_dir).
Local Abbreviation fetch' := (fetch path_join http_get json_loads cache_dir).
Local Abbreviation download_file' :=
  (fun info => download_file path_join disk http_get json_loads info
                 cache_dir).
Local Abbreviation step_task' := (step_task path_join disk http_get json_loads
                                 cache_dir).
Local Abbreviation loop_step' := (loop_step path_join disk http_get json_loads
                                 cache_dir).

Lemma fetch_fails info :
  body_parses info = false ->
  exists r, fetch' info = inl r /\ is_true r = false.
Proof.
  assert (Hr : forall r : task_result, is_true r = false ->
            exists r', inl r = inl (B := pystr * json) r' /\
                       is_true r' = false) by eauto.
  unfold body_parses, fetch.
  destruct (info !! NAME) as [file_name|]; [|intros; now apply Hr].
  destruct (info !! DOWNLOAD_URL) as [file_url|]; [|intros; now apply Hr].
  destruct (http_get file_url) as [|status [text|]];
    try (intros; now apply Hr);
    [|destruct (400 <=? status); intros; now apply Hr].
  rewrite N.ltb_antisym.
  destruct (400 <=? status); [intros; now apply Hr|]. simpl.
  destruct (json_loads text); [|intros; now apply Hr].
  intros H. apply bool_decide_eq_false in H. destruct H. eauto.
Qed.

Lemma fetch_parses info :
  body_parses info = true ->
  exists file_name data,
    info !! NAME = Some file_name /\
    fetch' info = inr (path_join cache_dir file_name, data).
Proof.
  unfold body_parses, fetch.
  destruct (info !! NAME) as [file_name|]; [|discriminate].
  destruct (info !! DOWNLOAD_URL) as [file_url|]; [|discriminate].
  destruct (http_get file_url) as [|status [text|]]; try discriminate.
  rewrite N.ltb_antisym.
  destruct (400 <=? status); [discriminate|]. simpl.
  destruct (json_loads text) as [data|]; [eauto|].
  intros H. apply bool_decide_eq_true in H as [? ?]. discriminate.
Qed.

Lemma download_file_outcome info fs :
  (download_file' info fs).1 = outcome info.
Proof.
  unfold download_file, outcome.
  destruct (fetch' info) as [r|[file_path data]]; [reflexivity|].
  destruct (disk file_path); reflexivity.
Qed.

Lemma outcome_succeeds info : is_true (outcome info) = succeeds info.
Proof.
  unfold outcome, succeeds.
  destruct (body_parses info) eqn:E.
  - apply fetch_parses in E as (file_name & data & -> & ->). simpl.
    destruct (write_ok _); reflexivity.
  - apply fetch_fails in E as (r & -> & Hr). exact Hr.
Qed.

Lemma count_true_outcomes (json_files : list file_info) :
  count_true (outcome <$> json_files)
  = length (filter (fun info => succeeds info = true) json_files).
Proof.
  unfold count_true.
  induction json_files as [|info rest IH]; [reflexivity|].
  rewrite fmap_cons, !filter_cons, outcome_succeeds.
  destruct (decide (succeeds info = true)); simpl; now rewrite IH.
Qed.

Lemma gather_results json_files fs :
  (gather path_join disk http_get json_loads json_files cache_dir fs).1
  = outcome <$> json_files.
Proof.
  revert fs. induction json_files as [|info rest IH]; intros fs;
    [reflexivity|].
  simpl. pose proof (download_file_outcome info fs) as Ho.
  destruct (download_file' info fs) as [r fs1]. simpl in Ho. subst r.
  specialize (IH fs1).
  destruct (gather _ _ _ _ rest cache_dir fs1) as [results fs2].
  simpl in *. now rewrite IH.
Qed.

(** ** The event loop *)

Lemma step_task_finish t fs : finish (step_task' t fs).1 = finish t.
Proof.
  destruct t as [info|file_path data|file_path data|r]; simpl;
    try (destruct (disk file_path) eqn:E; simpl; rewrite ?E; reflexivity);
    [|reflexivity].
  unfold outcome. destruct (fetch' info) as [r|[file_path data]]; reflexivity.
Qed.

Lemma step_task_remaining t fs :
  is_done t = false ->
  (remaining (step_task' t fs).1 < remaining t)%nat.
Proof.
  destruct t as [info|file_path data|file_path data|r]; simpl;
    try (destruct (disk file_path); simpl; lia); [|discriminate].
  destruct (fetch' info) as [r|[file_path data]]; simpl; lia.
Qed.

Lemma work_insert ts i t t' :
  ts !! i = Some t ->
  (work (<[i := t']> ts) + remaining t = work ts + remaining t')%nat.
Proof.
  revert i. induction ts as [|x ts IH]; intros [|i] H;
    try discriminate; simpl in *.
  - injection H as ->. lia.
  - specialize (IH i H). lia.
Qed.

Lemma loop_step_work st st' :
  loop_step' st st' -> (work st'.1 < work st.1)%nat.
Proof.
  intros [i t ts fs Hi Hd]. simpl.
  pose proof (work_insert ts i t (step_task' t fs).1 Hi).
  pose proof (step_task_remaining t fs Hd). lia.
Qed.

Lemma loop_step_finish st st' :
  loop_step' st st' -> finish <$> st'.1 = finish <$> st.1.
Proof.
  intros [i t ts fs Hi Hd]. simpl.
  rewrite list_fmap_insert, step_task_finish.
  apply list_insert_id. now rewrite list_lookup_fmap, Hi.
Qed.

Lemma nsteps_loop n st st' :
  nsteps loop_step' n st st' ->
  (work st'.1 + n <= work st.1)%nat /\ finish <$> st'.1 = finish <$> st.1.
Proof.
  induction 1 as [st|n st st1 st2 Hstep _ [IHw IHf]]; [split; [lia|easy]|].
  apply loop_step_work in Hstep as Hw. apply loop_step_finish in Hstep as Hf.
  split; [lia | congruence].
Qed.

Lemma work_start (json_files : list file_info) :
  work (Start <$> json_files) = (3 * length json_files)%nat.
Proof.
  induction json_files as [|info rest IH]; [reflexivity|].
  rewrite fmap_cons, length_cons. simpl work. rewrite IH. lia.
Qed.

Lemma finish_start (json_files : list file_info) :
  finish <$> (Start <$> json_files) = outcome <$> json_files.
Proof. now rewrite <- list_fmap_compose. Qed.

Lemma results_of_done ts :
  Forall (fun t => is_done t = true) ts -> results_of ts = finish <$> ts.
Proof.
  unfold results_of. induction 1 as [|t ts Ht _ IH]; [reflexivity|].
  destruct t; try discriminate. simpl. f_equal. exact IH.
Qed.

Lemma loop_progress ts fs :
  Forall (fun t => is_done t = true) ts \/
  exists st', loop_step' (ts, fs) st'.
Proof.
  destruct (decide (Forall (fun t => is_done t = true) ts)) as [H|H];
    [now left | right].
  apply not_Forall_Exists in H; [|intros t; apply _].
  apply Exists_exists in H as (t & Hin & Ht).
  apply list_elem_of_lookup in Hin as [i Hi].
  eexists. apply (loop_step_at _ _ _ _ _ i t ts fs Hi).
  simpl in Ht. now destruct (is_done t).
Qed.

End DownloaderFacts.

Lemma request_fails_body http_get json_loads info :
  request_fails http_get json_loads info ->
  body_parses http_get json_loads info = false.
Proof.
  intros (file_url & Hurl & H). unfold body_parses. rewrite Hurl.
  destruct (info !! NAME); [|reflexivity].
  destruct H as [->|(status & body & -> & H)]; [reflexivity|].
  destruct H as [H|[->|(text & -> & H)]]; try reflexivity.
  - destruct body; [|reflexivity].
    apply N.ltb_ge in H. now rewrite H.
  - rewrite H, andb_false_iff. right.
    apply bool_decide_eq_false. now intros [? ?].
Qed.

(** C7: the fetcher returns the number of descriptors that succeed,
    whatever fails for the others: a failed request, a bad status, a body
    that is not JSON and a failed write each count as unsuccessful, a task
    that raises too.  Run one step at a time in any order, the tasks are
    all done after at most three steps each, and the count over their
    results is the same.  With no descriptor the count is 0 and nothing is
    written. *)
Theorem download_all_files_counts
    (path_join : pystr -> pystr -> pystr) (disk : pystr -> disk_outcome)
    (http_get : pystr -> http_reply) (json_loads : pystr -> option json)
    (json_files : list file_info) (cache_dir : pystr) (fs : fsys) :
  let successes :=
    length (filter (fun info => succeeds path_join disk http_get json_loads
                                  cache_dir info = true) json_files) in
  (download_all_files path_join disk http_get json_loads json_files
     cache_dir fs).1 = successes /\
  download_all_files path_join disk http_get json_loads [] cache_dir fs
    = (0%nat, fs) /\
  forall n ts fs',
    nsteps (loop_step path_join disk http_get json_loads cache_dir) n
      (Start <$> json_files, fs) (ts, fs') ->
    (n <= 3 * length json_files)%nat /\
    (Forall (fun t => is_done t = true) ts \/
     exists st', loop_step path_join disk http_get json_loads cache_dir
                   (ts, fs') st') /\
    (Forall (fun t => is_done t = true) ts ->
     count_true (results_of ts) = successes).
Proof.
  intros successes. split; [|split; [reflexivity|]].
  - unfold download_all_files.
    pose proof (gather_results path_join disk http_get json_loads cache_dir
                  json_files fs) as Hg.
    destruct (gather _ _ _ _ json_files cache_dir fs) as [results fs'].
    simpl in *. subst results. apply count_true_outcomes.
  - intros n ts fs' Hrun.
    apply nsteps_loop in Hrun as [Hwork Hfinish]. simpl in *.
    rewrite work_start in Hwork. rewrite finish_start in Hfinish.
    split; [lia|]. split; [apply loop_progress|].
    intros Hdone.
    rewrite (results_of_done path_join disk http_get json_loads cache_dir
               ts Hdone), Hfinish. apply count_true_outcomes.
Qed.

(** A run of the event loop on the two descriptors: the second request is
    answered first (with a 404), then the first file is fetched, opened
    and written. *)
Lemma example_loop_run :
  nsteps (loop_step slash_join (fun _ => WriteOk) example_get example_loads
            CACHE_DIR) 4
    (Start <$> example_files, fs_of [])
    ([Done (Returned true); Done (Returned false)],
     fs_of [(lit ".cache/languages/en_gb.json", Text (JObject ∅))]).
Proof.
  eapply nsteps_l.
  { apply (loop_step_at _ _ _ _ _ 1
             (Start (descriptor (lit "fr_fr.json")
                       (lit "https://example.org/fr_fr.json"))));
      reflexivity. }
  eapply nsteps_l.
  { apply (loop_step_at _ _ _ _ _ 0
             (Start (descriptor (lit "en_gb.json")
                       (lit "https://example.org/en_gb.json"))));
      reflexivity. }
  eapply nsteps_l.
  { apply (loop_step_at _ _ _ _ _ 0
             (Parsed (lit ".cache/languages/en_gb.json") (JObject ∅)));
      reflexivity. }
  eapply nsteps_l.
  { apply (loop_step_at _ _ _ _ _ 0
             (Opened (lit ".cache/languages/en_gb.json") (JObject ∅)));
      reflexivity. }
  vm_compute. apply nsteps_O.
Qed.

Lemma download_all_files_counts_witness :
  download_all_files slash_join (fun _ => WriteOk) example_get example_loads
    example_files CACHE_DIR (fs_of [])
  = (1%nat, fs_of [(lit ".cache/languages/en_gb.json", Text (JObject ∅))]) /\
  count_true
    (results_of [Done (Returned true); Done (Returned false)]) = 1%nat.
Proof.
  split; [vm_compute; reflexivity|].
  destruct (download_all_files_counts slash_join (fun _ => WriteOk)
              example_get example_loads example_files CACHE_DIR (fs_of []))
    as (_ & _ & Hloop).
  destruct (Hloop _ _ _ example_loop_run) as (_ & _ & Hcount).
  apply Hcount. repeat constructor.
Defined.

(** C10: when the request of a descriptor fails, its status is from 400
    on, or its body is not JSON, [download_file] leaves every file as it
    was and does not return [True]; the task is done after its first step
    and has opened nothing. *)
Theorem failed_download_writes_nothing
    (path_join : pystr -> pystr -> pystr) (disk : pystr -> disk_outcome)
    (http_get : pystr -> http_reply) (json_loads : pystr -> option json)
    (info : file_info) (cache_dir : pystr) (fs : fsys) :
  request_fails http_get json_loads info ->
  (download_file path_join disk http_get json_loads info cache_dir fs).2
    = fs /\
  is_true
    (download_file path_join disk http_get json_loads info cache_dir fs).1
    = false /\
  exists r,
    step_task path_join disk http_get json_loads cache_dir (Start info) fs
    = (Done r, fs).
Proof.
  intros H. apply request_fails_body in H.
  destruct (fetch_fails path_join http_get json_loads cache_dir info H)
    as (r & Hfetch & Hr).
  unfold download_file. simpl. rewrite Hfetch. eauto.
Qed.

Lemma failed_download_writes_nothing_witness :
  let info := descriptor (lit "fr_fr.json")
                (lit "https://example.org/fr_fr.json") in
  let fs := fs_of [(lit ".cache/languages/fr_fr.json",
                    Text (JObject {[ SLEEP_KEY := lit "%s/%s dorment" ]}))] in
  (download_file slash_join (fun _ => WriteOk) example_get example_loads
     info CACHE_DIR fs).2 = fs /\
  is_true
    (download_file slash_join (fun _ => WriteOk) example_get example_loads
       info CACHE_DIR fs).1 = false /\
  exists r,
    step_task slash_join (fun _ => WriteOk) example_get example_loads
      CACHE_DIR (Start info) fs = (Done r, fs).
Proof.
  apply failed_download_writes_nothing.
  exists (lit "https://example.org/fr_fr.json"). split; [reflexivity|].
  right. exists 404, (Some (lit "Not Found")). split; [reflexivity|].
  left. vm_compute. discriminate.
Defined.

(** The file is written once the body has parsed: a download whose body
    parses and whose disk takes the write puts the parsed value there. *)
Example download_file_run :
  download_file slash_join (fun _ => WriteOk) example_get example_loads
    (descriptor (lit "en_gb.json") (lit "https://example.org/en_gb.json"))
    CACHE_DIR (fs_of [])
  = (Returned true,
     fs_of [(lit ".cache/languages/en_gb.json", Text (JObject ∅))]).
Proof. vm_compute. reflexivity. Qed.

(** * The language-code extractor *)

(** ** Counting and splitting at one character *)

Section SplitChar.

Variable x : N.

Lemma literal_match_char c tl :
  literal_match [x] (c :: tl) = if x =? c then Some 1%nat else None.
Proof.
  unfold literal_match. simpl. rewrite andb_true_r.
  now destruct (x =? c).
Qed.

Lemma count_absent s : x ∉ s -> str_count [x] s = 0%nat.
Proof.
  unfold str_count. induction s as [|c tl IH]; intros H; [reflexivity|].
  cbn [count_from]. rewrite literal_match_char.
  apply not_elem_of_cons in H as [Hc Htl].
  destruct (N.eqb_spec x c); [congruence|]. now apply IH.
Qed.

Lemma count_at a b :
  x ∉ a -> str_count [x] (a ++ x :: b) = S (str_count [x] b).
Proof.
  unfold str_count. induction a as [|c a IH]; intros H.
  - cbn [app count_from]. rewrite literal_match_char, N.eqb_refl.
    reflexivity.
  - cbn [app count_from]. rewrite literal_match_char.
    apply not_elem_of_cons in H as [Hc Ha].
    destruct (N.eqb_spec x c); [congruence|]. now apply IH.
Qed.

Lemma split_absent cur s :
  x ∉ s -> split_from [x] 0 cur s = [cur ++ s].
Proof.
  revert cur. induction s as [|c tl IH]; intros cur H.
  - now rewrite app_nil_r.
  - cbn [split_from]. rewrite literal_match_char.
    apply not_elem_of_cons in H as [Hc Htl].
    destruct (N.eqb_spec x c); [congruence|].
    rewrite IH by exact Htl. now rewrite <- app_assoc.
Qed.

Lemma split_at cur a b :
  x ∉ a ->
  split_from [x] 0 cur (a ++ x :: b) = (cur ++ a) :: str_split [x] b.
Proof.
  revert cur. induction a as [|c a IH]; intros cur H.
  - cbn [app split_from]. rewrite literal_match_char, N.eqb_refl.
    now rewrite app_nil_r.
  - cbn [app split_from]. rewrite literal_match_char.
    apply not_elem_of_cons in H as [Hc Ha].
    destruct (N.eqb_spec x c); [congruence|].
    rewrite IH by exact Ha. now rewrite <- app_assoc.
Qed.

(** A string splits at the first [x] in it, if there is one. *)
Lemma first_occurrence s :
  x ∉ s \/ exists a b, s = a ++ x :: b /\ x ∉ a.
Proof.
  induction s as [|c tl IH]; [left; inversion 1|].
  destruct (N.eqb_spec x c) as [<-|Hne].
  - right. exists [], tl. split; [reflexivity | inversion 1].
  - destruct IH as [H|(a & b & -> & Ha)].
    + left. now apply not_elem_of_cons.
    + right. exists (c :: a), b. split; [reflexivity|].
      now apply not_elem_of_cons.
Qed.

Lemma count_zero s : str_count [x] s = 0%nat -> x ∉ s.
Proof.
  destruct (first_occurrence s) as [H|(a & b & -> & Ha)]; [auto|].
  now rewrite count_at.
Qed.

(** Exactly one [x]: the string is two pieces without [x] around it. *)
Lemma count_one s :
  str_count [x] s = 1%nat ->
  exists a b, s = a ++ x :: b /\ (x ∉ a) /\ (x ∉ b).
Proof.
  destruct (first_occurrence s) as [H|(a & b & -> & Ha)].
  - now rewrite count_absent.
  - rewrite count_at by exact Ha. intros [= H].
    exists a, b. repeat split; [exact Ha | now apply count_zero].
Qed.

Lemma split_one a b :
  x ∉ a -> x ∉ b -> str_split [x] (a ++ x :: b) = [a; b].
Proof.
  intros Ha Hb. unfold str_split at 1. rewrite split_at by exact Ha.
  unfold str_split. now rewrite split_absent.
Qed.

End SplitChar.

(** ** The shapes of a language identifier *)

Section Shapes.

Variable uni_alpha : N -> bool.
Variable uni_digit : N -> bool.

Local Abbreviation yields := (yields uni_alpha uni_digit).

Lemma alpha_no_underscore s :
  Forall (fun c => isalpha_char uni_alpha c = true) s -> UNDERSCORE ∉ s.
Proof.
  rewrite Forall_forall. intros H Hin. apply H in Hin. discriminate.
Qed.

Lemma alpha_token_test s :
  alpha_token uni_alpha s <->
  str_isalpha uni_alpha s && (2 <=? length s)%nat = true.
Proof.
  unfold alpha_token, str_isalpha, str_eqb.
  rewrite !andb_true_iff, negb_true_iff, bool_decide_eq_false,
    Nat.leb_le, forallb_forall, Forall_forall.
  setoid_rewrite list_elem_of_In.
  split; [intros [Hlen Hall] | intros [[_ Hall] Hlen]]; auto.
  repeat split; auto. intros ->. simpl in Hlen. lia.
Qed.

Lemma plain_code_test_spec code :
  plain_code_test uni_alpha code = true <->
  language_identifier uni_alpha code.
Proof.
  unfold plain_code_test, language_identifier.
  rewrite orb_true_iff. split.
  - intros [H|H].
    + left. apply alpha_token_test.
      rewrite !andb_true_iff in *. tauto.
    + right. rewrite !andb_true_iff in H. destruct H as [[Hc _] Hparts].
      apply Nat.eqb_eq, count_one in Hc as (a & b & -> & Ha & Hb).
      rewrite split_one in Hparts by assumption. simpl in Hparts.
      rewrite andb_true_r, andb_true_iff in Hparts.
      exists a, b. now rewrite !alpha_token_test.
  - intros [H|(a & b & -> & Ha & Hb)].
    + left. pose proof H as [_ Hall].
      apply alpha_no_underscore, count_absent in Hall.
      apply alpha_token_test in H. rewrite Hall. exact H.
    + right. pose proof Ha as [_ Hna]. pose proof Hb as [_ Hnb].
      apply alpha_no_underscore in Hna, Hnb.
      rewrite count_at, count_absent, split_one by assumption.
      apply alpha_token_test in Ha, Hb. cbn [forallb]. now rewrite Ha, Hb.
Qed.

(** X13: a code accepted from a cell without the marker has one of the
    two shapes: letters only, two at least, or two such tokens joined by
    one underscore. *)
Lemma plain_row_code_shape cells code :
  row_code uni_alpha uni_digit cells = Some code ->
  str_in JE_ONLY (nth 4 cells []) = false ->
  language_identifier uni_alpha code.
Proof.
  unfold row_code. intros H Hje. rewrite Hje in H.
  destruct (length cells <? 6)%nat; [discriminate|].
  destruct (negb (str_isdigit _ _)); [discriminate|].
  destruct (4 <? length cells)%nat; [|discriminate].
  destruct (negb _ && negb _); [|discriminate].
  apply plain_code_test_spec. unfold plain_code_test.
  destruct (_ && _ && _) eqn:E1 in H; [injection H as <-; now rewrite E1|].
  destruct (_ && _ && _) eqn:E2 in H; [|discriminate].
  injection H as <-. rewrite E2. apply orb_true_r.
Qed.

(** X14: a code accepted from a cell with the marker holds exactly one
    underscore; a Java-Edition-only code without an underscore is never
    accepted. *)
Lemma je_row_code_shape cells code :
  row_code uni_alpha uni_digit cells = Some code ->
  str_in JE_ONLY (nth 4 cells []) = true ->
  exists a b, code = a ++ UNDERSCORE :: b /\
              (UNDERSCORE ∉ a) /\ (UNDERSCORE ∉ b).
Proof.
  unfold row_code. intros H Hje. rewrite Hje in H.
  destruct (length cells <? 6)%nat; [discriminate|].
  destruct (negb (str_isdigit _ _)); [discriminate|].
  destruct (4 <? length cells)%nat; [|discriminate].
  destruct (negb _ && negb _); [|discriminate].
  destruct (_ && _ && _) eqn:E in H; [|discriminate].
  injection H as <-. rewrite !andb_true_iff in E.
  destruct E as [[_ Hc] _]. now apply Nat.eqb_eq, count_one in Hc.
Qed.

(** ** The loop over the rows *)

Lemma extract_codes_omap rows :
  extract_codes uni_alpha uni_digit rows
  = omap (row_code uni_alpha uni_digit) rows.
Proof.
  unfold extract_codes.
  enough (H : forall acc,
            fold_left
              (fun language_codes row =>
                 match row_code uni_alpha uni_digit row with
                 | Some code => language_codes ++ [code]
                 | None => language_codes
                 end) rows acc
            = acc ++ omap (row_code uni_alpha uni_digit) rows)
    by apply (H []).
  induction rows as [|row rows IH]; intros acc; simpl.
  - now rewrite app_nil_r.
  - rewrite IH. destruct (row_code _ _ row); [|reflexivity].
    now rewrite <- app_assoc.
Qed.

Lemma elem_of_omap_yields rows c :
  c ∈ omap (row_code uni_alpha uni_digit) rows <-> exists i, yields rows i c.
Proof.
  rewrite list_elem_of_omap. split.
  - intros (row & Hin & Hc). apply list_elem_of_lookup in Hin as [i Hi].
    exists i, row. auto.
  - intros (i & row & Hi & Hc). exists row. split; [|exact Hc].
    eapply list_elem_of_lookup_2, Hi.
Qed.

Lemma yields_head row rows c :
  yields (row :: rows) 0 c <-> row_code uni_alpha uni_digit row = Some c.
Proof.
  split; [|intros H; now exists row].
  intros (r & Hr & Hc). simpl in Hr. now injection Hr as <-.
Qed.

Lemma yields_tail row rows i c :
  yields (row :: rows) (S i) c <-> yields rows i c.
Proof. reflexivity. Qed.

Lemma NoDup_omap_yields rows :
  NoDup (omap (row_code uni_alpha uni_digit) rows) <->
  forall i j c, yields rows i c -> yields rows j c -> i = j.
Proof.
  induction rows as [|row rows IH].
  - split; [intros _ i j c (r & Hr & _); discriminate | constructor].
  - cbn [omap list_omap].
    destruct (row_code uni_alpha uni_digit row) as [c0|] eqn:E.
    + rewrite NoDup_cons, IH, elem_of_omap_yields. split.
      * intros [Hfresh Hinj] [|i] [|j] c Hi Hj; auto.
        -- apply yields_head in Hi. apply yields_tail in Hj.
           destruct Hfresh. exists j. congruence.
        -- apply yields_head in Hj. apply yields_tail in Hi.
           destruct Hfresh. exists i. congruence.
        -- f_equal. apply (Hinj i j c); [exact Hi | exact Hj].
      * intros Hinj. split.
        -- intros [j Hj].
           assert (H0 : yields (row :: rows) 0 c0) by now apply yields_head.
           discriminate (Hinj 0%nat (S j) c0 H0 Hj).
        -- intros i j c Hi Hj.
           now injection (Hinj (S i) (S j) c Hi Hj).
    + rewrite IH. split.
      * intros Hinj [|i] [|j] c Hi Hj; auto.
        -- apply yields_head in Hi. congruence.
        -- apply yields_head in Hj. congruence.
        -- f_equal. apply (Hinj i j c); [exact Hi | exact Hj].
      * intros Hinj i j c Hi Hj.
        now injection (Hinj (S i) (S j) c Hi Hj).
Qed.

End Shapes.

(** A row whose code cell is the dash that stands for "no code" gives
    nothing. *)
Example dash_row_is_skipped (uni_alpha uni_digit : N -> bool) :
  row_code uni_alpha uni_digit (table_row (lit "7") [EN_DASH]) = None.
Proof. vm_compute. reflexivity. Qed.

(** C4: every identifier the extractor accepts should be a token of two
    letters or more, or two such tokens joined by one underscore, and so
    should one accepted after the Java-Edition marker is stripped.  The
    code checks this of a cell without the marker (the third row below is
    turned down) and not of one with it: of the cells "_[JEonly]" and
    "x_1[JEonly]" it accepts "_" and "x_1", which have neither shape. *)
Theorem je_only_codes_are_not_checked (uni_alpha uni_digit : N -> bool) :
  get_language_codes uni_alpha uni_digit
    (PageWithTable [table_row (lit "1") (lit "_" ++ JE_ONLY);
                    table_row (lit "2") (lit "x_1" ++ JE_ONLY);
                    table_row (lit "3") (lit "x_1")])
  = inr [lit "_"; lit "x_1"] /\
  ~ language_identifier uni_alpha (lit "_") /\
  ~ language_identifier uni_alpha (lit "x_1").
Proof.
  split; [vm_compute; reflexivity|].
  split; rewrite <- plain_code_test_spec; vm_compute; discriminate.
Qed.

(** C5, as the code has it: a table with the same code in two rows gives
    a list with that code twice. *)
Lemma repeated_code_is_kept_twice :
  (forall uni_alpha uni_digit,
     get_language_codes uni_alpha uni_digit
       (PageWithTable [table_row (lit "1") (lit "en_us");
                       table_row (lit "2") (lit "en_us")])
     = inr [lit "en_us"; lit "en_us"]) /\
  ~ NoDup [lit "en_us"; lit "en_us"].
Proof.
  split; [intros; vm_compute; reflexivity|].
  intros H. apply NoDup_cons in H as [H _]. apply H. left.
Qed.

(** C5, amended: the extractor returns a list, not a set.  It holds the
    code of every accepted row, in the order of the rows and once per
    row; so it is free of duplicates exactly when no two rows give the
    same code. *)
Theorem get_language_codes_in_row_order (uni_alpha uni_digit : N -> bool)
    (rows : list (list pystr)) :
  get_language_codes uni_alpha uni_digit (PageWithTable rows)
    = inr (omap (row_code uni_alpha uni_digit) rows) /\
  (forall rows1 rows2,
     extract_codes uni_alpha uni_digit (rows1 ++ rows2)
     = extract_codes uni_alpha uni_digit rows1
       ++ extract_codes uni_alpha uni_digit rows2) /\
  (NoDup (extract_codes uni_alpha uni_digit rows) <->
   forall i j c, yields uni_alpha uni_digit rows i c ->
                 yields uni_alpha uni_digit rows j c -> i = j).
Proof.
  split; [simpl; now rewrite extract_codes_omap|]. split.
  - intros rows1 rows2. rewrite !extract_codes_omap. apply omap_app.
  - rewrite extract_codes_omap. apply NoDup_omap_yields.
Qed.

(** * More about the placeholder rewrite *)

Section ScanShape.

Variable matcher : pystr -> option nat.
Variable repl : pystr.

(** The scan copies characters of the subject and puts the replacement;
    nothing else comes out of it. *)
Lemma scan_from_chars k s :
  Forall (fun c => c ∈ s \/ c ∈ repl) (scan_from matcher repl k s).
Proof.
  revert k. induction s as [|c tl IH]; intros k; [constructor|].
  assert (Htl : forall k', Forall (fun x => x ∈ c :: tl \/ x ∈ repl)
                             (scan_from matcher repl k' tl)).
  { intros k'. eapply Forall_impl; [apply IH|].
    intros x [H|H]; [left; now right | now right]. }
  simpl. destruct k as [|k]; [|apply Htl].
  destruct (matcher (c :: tl)) as [[|n]|].
  - constructor; [left; left | apply Htl].
  - apply Forall_app. split; [|apply Htl].
    apply Forall_forall. intros x Hx. now right.
  - constructor; [left; left | apply Htl].
Qed.

(** When no match is shorter than the replacement, or longer than what
    is left of the subject, the result is no longer than the subject. *)
Lemma scan_from_length k s :
  (forall t n, matcher t = Some (S n) ->
     (length repl <= S n <= length t)%nat) ->
  (k <= length s)%nat ->
  (length (scan_from matcher repl k s) + k <= length s)%nat.
Proof.
  intros Hm. revert k. induction s as [|c tl IH]; intros k Hk.
  - simpl in *. lia.
  - simpl. destruct k as [|k].
    + destruct (matcher (c :: tl)) as [[|n]|] eqn:E.
      * specialize (IH 0%nat ltac:(lia)). simpl. lia.
      * apply Hm in E. simpl in E.
        specialize (IH n ltac:(lia)). rewrite length_app. lia.
      * specialize (IH 0%nat ltac:(lia)). simpl. lia.
    + simpl in Hk. specialize (IH k ltac:(lia)). lia.
Qed.

End ScanShape.

Lemma starts_with_length old s :
  starts_with old s = true -> (length old <= length s)%nat.
Proof.
  intros H. apply starts_with_true in H as [post ->].
  rewrite length_app. lia.
Qed.

Lemma str_replace_chars old new s :
  Forall (fun c => c ∈ s \/ c ∈ new) (str_replace old new s).
Proof.
  destruct old as [|a old]; [|apply scan_from_chars].
  simpl. apply Forall_app. split.
  - apply Forall_forall. intros x Hx. now right.
  - induction s as [|c tl IH]; [constructor|]. simpl.
    constructor; [left; left|]. apply Forall_app. split.
    + apply Forall_forall. intros x Hx. now right.
    + eapply Forall_impl; [apply IH|].
      intros x [H|H]; [left; now right | now right].
Qed.

Lemma str_replace_length old new s :
  (length new <= length old)%nat -> old <> [] ->
  (length (str_replace old new s) <= length s)%nat.
Proof.
  intros Hlen Hold. destruct old as [|a old]; [easy|].
  pose proof (scan_from_length (literal_match (a :: old)) new 0 s) as H.
  unfold str_replace, scan_sub. enough (Hm : _) by (specialize (H Hm); lia).
  intros t n. unfold literal_match.
  destruct (starts_with (a :: old) t) eqn:E; [|discriminate].
  intros [= <-]. apply starts_with_length in E. simpl in *. lia.
Qed.

Lemma re_sub_indexed_length u s :
  (length (re_sub_indexed u (lit "??") s) <= length s)%nat.
Proof.
  pose proof (scan_from_length (indexed_match u) (lit "??") 0 s) as H.
  unfold re_sub_indexed, scan_sub. enough (Hm : _) by (specialize (H Hm); lia).
  intros t n E. apply indexed_match_some in E as (w & post & -> & Hw & Hn).
  destruct Hw as (ds & -> & Hne & _). rewrite length_app, <- Hn.
  destruct ds; [easy|]. simpl in *. lia.
Qed.

(** X1: what the rewrite step gives is made of characters of the message
    and of question marks, and is never longer than the message. *)
Theorem rewrite_placeholders_shape (uni_decimal : N -> bool)
    (sleep_msg : pystr) :
  Forall (fun c => c ∈ sleep_msg \/ c = QUESTION)
    (rewrite_placeholders uni_decimal sleep_msg) /\
  (length (rewrite_placeholders uni_decimal sleep_msg)
   <= length sleep_msg)%nat.
Proof.
  rewrite rewrite_placeholders_passes. split.
  - assert (Hq : forall n c, c ∈ replicate n QUESTION -> c = QUESTION).
    { intros n c H. now apply elem_of_replicate in H as [-> _]. }
    set (s1 := str_replace (lit "%s/%s") (lit "???") sleep_msg).
    set (s2 := re_sub_indexed uni_decimal (lit "??") s1).
    set (s3 := str_replace (lit "%s") (lit "??") s2).
    assert (H1 : Forall (fun c => c ∈ sleep_msg \/ c = QUESTION) s1).
    { eapply Forall_impl; [apply str_replace_chars|].
      intros c [H|H]; [now left | right; apply (Hq 3%nat c H)]. }
    assert (Hstep : forall s s', Forall (fun c => c ∈ s \/ c ∈ lit "??") s' ->
              Forall (fun c => c ∈ sleep_msg \/ c = QUESTION) s ->
              Forall (fun c => c ∈ sleep_msg \/ c = QUESTION) s').
    { intros s s' Hs' Hs. eapply Forall_impl; [exact Hs'|].
      intros c [H|H]; [|right; apply (Hq 2%nat c H)].
      rewrite Forall_forall in Hs. now apply Hs. }
    apply (Hstep s3); [apply str_replace_chars|].
    apply (Hstep s2); [apply str_replace_chars|].
    apply (Hstep s1); [apply scan_from_chars | exact H1].
  - etransitivity; [apply str_replace_length; [simpl; lia | discriminate]|].
    etransitivity; [apply str_replace_length; [simpl; lia | discriminate]|].
    etransitivity; [apply re_sub_indexed_length|].
    apply str_replace_length; [simpl; lia | discriminate].
Qed.

Lemma rewrite_placeholders_plain_witness :
  rewrite_placeholders (fun _ => false) (lit "Everyone is asleep")
  = lit "Everyone is asleep".
Proof.
  apply rewrite_placeholders_plain.
  intros H. apply char_in_elem_of in H. vm_compute in H. discriminate.
Defined.

(** * More about the verification pass *)

Lemma occurs_elem_of (L : pystr -> Prop) (c : N) (s : pystr) :
  (forall w, L w -> c ∈ w) -> occurs L s -> c ∈ s.
Proof.
  intros HL (pre & w & post & -> & Hw).
  apply elem_of_app. right. apply elem_of_app. left. now apply HL.
Qed.

(** X3: the test of the verification pass misses no placeholder: a
    message that holds "%s", "%d" or an indexed placeholder is flagged. *)
Theorem has_placeholder_complete (uni_decimal : N -> bool)
    (sleep_msg : pystr) :
  contains (lit "%s") sleep_msg \/ contains (lit "%d") sleep_msg \/
  occurs (indexed_word uni_decimal) sleep_msg ->
  has_placeholder sleep_msg = true.
Proof.
  intros H. apply has_placeholder_spec.
  destruct H as [H|[H|H]].
  - split; [|left]; revert H; apply occurs_elem_of; intros w <-;
      [left | right; left].
  - split; [|right]; revert H; apply occurs_elem_of; intros w <-;
      [left | right; left].
  - split; [|left]; revert H; apply occurs_elem_of;
      intros w (ds & -> & _); [left|].
    right. apply elem_of_app. right. right. left.
Qed.

Lemma has_placeholder_complete_witness :
  has_placeholder (lit "%1$s of %2$s asleep") = true.
Proof.
  apply (has_placeholder_complete (fun _ => false)).
  right. right. exists [], (lit "%1$s"), (lit " of %2$s asleep").
  split; [reflexivity|].
  exists (lit "1"). repeat split; [discriminate|].
  repeat constructor.
Defined.

(** X4: a warning of a run that ends well is a false alarm: every
    message the function reports as unmodified holds no "%s", no "%d" and
    no indexed placeholder; it holds a percent sign that is no part of
    one. *)
Theorem reported_messages_hold_no_placeholder
    (uni_decimal uni_alpha uni_digit : N -> bool)
    (path_join : pystr -> pystr -> pystr) (disk : pystr -> disk_outcome)
    (wiki : page) (output_path : pystr) (fs fs' : fsys)
    (report : list (pystr * pystr)) :
  process_sleep_messages uni_decimal uni_alpha uni_digit path_join disk
    wiki output_path fs = (inr report, fs') ->
  Forall (fun entry => placeholder_free uni_decimal entry.2 /\
                       PERCENT ∈ entry.2) report.
Proof.
  unfold process_sleep_messages, mbind, M_bind at 1.
  destruct (write_outputs _ _ _ _ _ _ _ fs) as [[e|codes] fs1] eqn:Ew;
    [discriminate|].
  intros Hcheck. apply check_unmodified_report in Hcheck. simpl in Hcheck.
  subst report. apply Forall_forall. intros [code msg] Hin.
  apply list_elem_of_omap in Hin as (c & Hc & Hentry).
  destruct (write_outputs_documents _ _ _ _ _ _ _ _ _ _ Ew c Hc)
    as (m & Hm & Hfree).
  unfold flagged_entry in Hentry. rewrite Hm in Hentry.
  rewrite lookup_singleton_eq in Hentry. simpl in Hentry.
  destruct (has_placeholder m) eqn:Eh; [|discriminate].
  injection Hentry as <- <-. split; [exact Hfree|].
  now apply has_placeholder_spec in Eh as [Hp _].
Qed.

Lemma reported_messages_hold_no_placeholder_witness :
  Forall (fun entry => placeholder_free (fun _ => false) entry.2 /\
                       PERCENT ∈ entry.2)
    [(lit "en_gb", lit "??? asleep (50% needed)")].
Proof.
  apply (reported_messages_hold_no_placeholder (fun _ => false)
           (fun _ => false) (fun _ => false) slash_join (fun _ => WriteOk)
           (PageWithTable [table_row (lit "1") (lit "en_gb")])
           (lit "pack/lang")
           (fs_of [(lit ".cache/languages/en_gb.json",
                    Text (JObject {[ SLEEP_KEY :=
                                       lit "%s/%s asleep (50% needed)" ]}))])
           (process_sleep_messages (fun _ => false) (fun _ => false)
              (fun _ => false) slash_join (fun _ => WriteOk)
              (PageWithTable [table_row (lit "1") (lit "en_gb")])
              (lit "pack/lang")
              (fs_of [(lit ".cache/languages/en_gb.json",
                       Text (JObject {[ SLEEP_KEY :=
                                          lit "%s/%s asleep (50% needed)" ]}))])).2).
  vm_compute. reflexivity.
Defined.

(** * More about the loop over the languages *)

Section LoopFrame.

Variable uni_decimal : N -> bool.
Variable path_join : pystr -> pystr -> pystr.
Variable disk : pystr -> disk_outcome.

Local Abbreviation output_file output_dir lang_code :=
  (path_join output_dir (lang_code ++ DOT_JSON)).
Local Abbreviation lang_file lang_code :=
  (path_join CACHE_DIR (lang_code ++ DOT_JSON)).
Local Abbreviation process_one' := (process_one uni_decimal path_join disk).

(** What one turn of the loop does when it ends well. *)
Lemma process_one_result output_dir fallback_sleep_msg lang_code fs fs' :
  process_one' output_dir fallback_sleep_msg lang_code fs = (inr tt, fs') ->
  exists sleep_msg,
    (source_message path_join fallback_sleep_msg lang_code fs).1
      = inr sleep_msg /\
    fs' = set_file (output_file output_dir lang_code)
            (Text (JObject {[ SLEEP_KEY :=
                                rewrite_placeholders uni_decimal sleep_msg ]}))
            fs.
Proof.
  unfold process_one, mbind, M_bind at 1.
  pose proof (source_message_frame path_join fallback_sleep_msg lang_code fs)
    as Hf.
  destruct (source_message _ _ _ fs) as [[e|sleep_msg] fs1]; [discriminate|].
  simpl in Hf. subst fs1. unfold dump_json.
  destruct (disk _); try discriminate.
  intros [= <-]. now exists sleep_msg.
Qed.

(** One turn of the loop, however it ends, changes no file but the
    output file of its language, and no directory. *)
Lemma process_one_frame output_dir fallback_sleep_msg lang_code fs p :
  p <> output_file output_dir lang_code ->
  files (process_one' output_dir fallback_sleep_msg lang_code fs).2 !! p
  = files fs !! p.
Proof.
  intros Hp. unfold process_one, mbind, M_bind at 1.
  pose proof (source_message_frame path_join fallback_sleep_msg lang_code fs)
    as Hf.
  destruct (source_message _ _ _ fs) as [[e|sleep_msg] fs1];
    simpl in Hf; subst fs1; [reflexivity|].
  unfold dump_json. destruct (disk _); simpl; try reflexivity;
    now rewrite lookup_insert_ne.
Qed.

Lemma process_one_dirs output_dir fallback_sleep_msg lang_code fs :
  dirs (process_one' output_dir fallback_sleep_msg lang_code fs).2 = dirs fs.
Proof.
  unfold process_one, mbind, M_bind at 1.
  pose proof (source_message_frame path_join fallback_sleep_msg lang_code fs)
    as Hf.
  destruct (source_message _ _ _ fs) as [[e|sleep_msg] fs1];
    simpl in Hf; subst fs1; [reflexivity|].
  unfold dump_json. destruct (disk _); reflexivity.
Qed.

Lemma for_each_frame output_dir fallback_sleep_msg language_codes fs p :
  (forall c, c ∈ language_codes -> p <> output_file output_dir c) ->
  files (for_each language_codes (process_one' output_dir fallback_sleep_msg)
           fs).2 !! p
  = files fs !! p.
Proof.
  revert fs. induction language_codes as [|c rest IH]; intros fs Hp;
    [reflexivity|].
  simpl. unfold mbind, M_bind at 1.
  pose proof (process_one_frame output_dir fallback_sleep_msg c fs p
                (Hp c ltac:(left))) as Hc.
  destruct (process_one' _ _ c fs) as [[e|[]] fs1]; [exact Hc|].
  simpl in Hc. rewrite <- Hc. apply IH.
  intros c' Hc'. apply Hp. now right.
Qed.

(** The message a turn reads depends on the language's file and on the
    directories only. *)
Lemma source_message_agree fallback_sleep_msg lang_code fs fs2 :
  files fs2 !! lang_file lang_code = files fs !! lang_file lang_code ->
  dirs fs2 = dirs fs ->
  (source_message path_join fallback_sleep_msg lang_code fs2).1
  = (source_message path_join fallback_sleep_msg lang_code fs).1.
Proof.
  intros Hf Hd. unfold source_message, mbind, M_bind, path_exists, load_json.
  simpl. rewrite Hf, Hd.
  destruct (_ || _); [|reflexivity].
  destruct (files fs !! _) as [[[d|]|]|]; rewrite ?Hf; reflexivity.
Qed.

Lemma source_message_set_file fallback_sleep_msg lang_code p c fs :
  p <> lang_file lang_code ->
  (source_message path_join fallback_sleep_msg lang_code
     (set_file p c fs)).1
  = (source_message path_join fallback_sleep_msg lang_code fs).1.
Proof.
  intros Hp. apply source_message_agree; [|reflexivity].
  simpl. now rewrite lookup_insert_ne.
Qed.

(** The output file of a language after a loop that ends well: the
    rewrite of the message the loop read for it, which is the one it reads
    in the state the loop starts from. *)
Lemma for_each_content output_dir fallback_sleep_msg language_codes fs fs'
    lang_code :
  for_each language_codes (process_one' output_dir fallback_sleep_msg) fs
    = (inr tt, fs') ->
  lang_code ∈ language_codes ->
  (forall c, c ∈ language_codes ->
     output_file output_dir c <> lang_file lang_code) ->
  (forall c, c ∈ language_codes ->
     output_file output_dir c = output_file output_dir lang_code ->
     c = lang_code) ->
  exists sleep_msg,
    (source_message path_join fallback_sleep_msg lang_code fs).1
      = inr sleep_msg /\
    files fs' !! output_file output_dir lang_code
    = Some (Text (JObject {[ SLEEP_KEY :=
                               rewrite_placeholders uni_decimal sleep_msg ]})).
Proof.
  revert fs. induction language_codes as [|c rest IH];
    intros fs Hrun Hin Hcache Hinj; [inversion Hin|].
  simpl in Hrun. unfold mbind, M_bind at 1 in Hrun.
  destruct (process_one' _ _ c fs) as [[e|[]] fs1] eqn:E1; [discriminate|].
  apply process_one_result in E1 as (m & Hm & ->).
  destruct (decide (lang_code ∈ rest)) as [Hrest|Hrest].
  - destruct (IH _ Hrun Hrest) as (m' & Hm' & Hfile).
    + intros c' Hc'. apply Hcache. now right.
    + intros c' Hc'. apply Hinj. now right.
    + exists m'. split; [|exact Hfile].
      rewrite source_message_set_file in Hm'; [exact Hm'|].
      apply Hcache. left.
  - apply elem_of_cons in Hin as [-> | Hin]; [|easy].
    exists m. split; [exact Hm|].
    pose proof (for_each_frame output_dir fallback_sleep_msg rest
                  (set_file (output_file output_dir c)
                     (Text (JObject {[ SLEEP_KEY :=
                        rewrite_placeholders uni_decimal m ]})) fs)
                  (output_file output_dir c)) as Hframe.
    rewrite Hrun in Hframe. simpl in Hframe. rewrite Hframe.
    + now rewrite lookup_insert_eq.
    + intros c' Hc' Heq. apply Hrest.
      rewrite <- (Hinj c' ltac:(now right) (eq_sym Heq)). exact Hc'.
Qed.

End LoopFrame.

Section RunFrame.

Variable uni_decimal : N -> bool.
Variable uni_alpha : N -> bool.
Variable uni_digit : N -> bool.
Variable path_join : pystr -> pystr -> pystr.
Variable disk : pystr -> disk_outcome.

Local Abbreviation write_outputs' :=
  (write_outputs uni_decimal uni_alpha uni_digit path_join disk).

(** What a run that ends well made of the table, the output directory,
    the fallback file and the loop. *)
Lemma write_outputs_inv wiki output_path fs language_codes fs' :
  write_outputs' wiki output_path fs = (inr language_codes, fs') ->
  exists rows fallback_data fs1,
    wiki = PageWithTable rows /\
    language_codes = extract_codes uni_alpha uni_digit rows /\
    mkdir output_path fs = (inr tt, fs1) /\
    files fs !! path_join CACHE_DIR (lit "en_gb.json")
      = Some (Text (JObject fallback_data)) /\
    for_each language_codes
      (process_one uni_decimal path_join disk output_path
         (default DEFAULT_SLEEP_MSG (fallback_data !! SLEEP_KEY)))
      fs1
    = (inr tt, fs').
Proof.
  unfold write_outputs, get_language_codes.
  destruct wiki as [| |rows]; try discriminate.
  unfold mbind, M_bind, mret, M_ret, lift, raise. simpl.
  destruct (mkdir output_path fs) as [[e|[]] fs1] eqn:Emk; [discriminate|].
  pose proof (mkdir_inr _ _ _ _ Emk) as Hfs1.
  assert (Hfiles : files fs1 = files fs) by now rewrite Hfs1.
  unfold path_exists, load_json. simpl.
  destruct (_ || _); [|discriminate]. simpl. rewrite Hfiles.
  destruct (files fs !! path_join CACHE_DIR (lit "en_gb.json"))
    as [[[d|]|]|] eqn:Efb; try discriminate. simpl.
  match goal with
  | |- context [for_each ?codes ?body ?s] =>
    destruct (for_each codes body s) as [[e|[]] fs2] eqn:Eloop
  end; [discriminate|].
  intros [= <- <-]. exists rows, d, fs1. repeat split; auto.
Qed.

End RunFrame.

(** X6: after a run that ends well, the output file of a language holds
    one key, the sleep message, with the rewrite of the message the cache
    gave: the one of the language's own file if that has the key, else
    the one of [en_gb.json], else "%s/%s players sleeping".  This is so
    for a language whose cache file no output file overwrites and whose
    output file is that of no other language of the table. *)
Theorem process_sleep_messages_output
    (uni_decimal uni_alpha uni_digit : N -> bool)
    (path_join : pystr -> pystr -> pystr) (disk : pystr -> disk_outcome)
    (rows : list (list pystr)) (output_path : pystr) (fs fs' : fsys)
    (report : list (pystr * pystr)) (lang_code : pystr)
    (lang_data : option doc) (fallback_data : doc) :
  process_sleep_messages uni_decimal uni_alpha uni_digit path_join disk
    (PageWithTable rows) output_path fs = (inr report, fs') ->
  lang_code ∈ extract_codes uni_alpha uni_digit rows ->
  files fs !! path_join CACHE_DIR (lit "en_gb.json")
    = Some (Text (JObject fallback_data)) ->
  cached_doc path_join fs output_path lang_code lang_data ->
  (forall c, c ∈ extract_codes uni_alpha uni_digit rows ->
     path_join output_path (c ++ DOT_JSON)
     <> path_join CACHE_DIR (lang_code ++ DOT_JSON)) ->
  (forall c, c ∈ extract_codes uni_alpha uni_digit rows ->
     path_join output_path (c ++ DOT_JSON)
     = path_join output_path (lang_code ++ DOT_JSON) -> c = lang_code) ->
  files fs' !! path_join output_path (lang_code ++ DOT_JSON)
  = Some (Text (JObject {[ SLEEP_KEY :=
       rewrite_placeholders uni_decimal
         (resolved_message lang_data fallback_data) ]})).
Proof.
  intros Hrun Hin Hfb Hcache Hapart Hinj.
  unfold process_sleep_messages, mbind, M_bind at 1 in Hrun.
  destruct (write_outputs _ _ _ _ _ _ _ fs) as [[e|codes] fs1] eqn:Ew;
    [discriminate|].
  pose proof (check_unmodified_frame path_join output_path codes [] fs1)
    as Hframe.
  rewrite Hrun in Hframe. simpl in Hframe. subst fs1.
  apply write_outputs_inv in Ew
    as (rows' & d & fs1 & [= <-] & -> & Hmk & Hd & Hloop).
  rewrite Hfb in Hd. injection Hd as <-.
  apply mkdir_inr in Hmk as ->.
  destruct (for_each_content _ _ _ _ _ _ _ _ _ Hloop Hin Hapart Hinj)
    as (sleep_msg & Hmsg & ->).
  do 4 f_equal. apply (inj (fun m => {[ SLEEP_KEY := m ]} : doc)). revert Hmsg.
  unfold source_message, mbind, M_bind, path_exists, load_json,
    resolved_message. simpl.
  destruct lang_data as [d|]; simpl in Hcache.
  - rewrite Hcache.
    rewrite (bool_decide_eq_true_2 (is_Some (Some _))) by eauto.
    simpl. rewrite Hcache. simpl. now intros [= <-].
  - destruct Hcache as (Hnone & _ & _). rewrite Hnone.
    rewrite (bool_decide_eq_false_2 (is_Some None)) by (intros [? ?]; easy).
    simpl. destruct (bool_decide _); simpl; rewrite ?Hnone; simpl;
      [discriminate|]. now intros [= <-].
Qed.

Lemma process_sleep_messages_output_witness :
  let wiki := PageWithTable [table_row (lit "1") (lit "en_gb");
                             table_row (lit "2") (lit "fr_fr")] in
  let fallback_data : doc :=
    {[ SLEEP_KEY := lit "%s/%s players sleeping" ]} in
  let fs := fs_of [(lit ".cache/languages/en_gb.json",
                    Text (JObject fallback_data))] in
  files (process_sleep_messages (fun _ => false) (fun _ => false)
           (fun _ => false) slash_join (fun _ => WriteOk) wiki
           (lit "pack/lang") fs).2 !! lit "pack/lang/fr_fr.json"
  = Some (Text (JObject {[ SLEEP_KEY := lit "??? players sleeping" ]})).
Proof.
  intros wiki fallback_data fs.
  apply (process_sleep_messages_output (fun _ => false) (fun _ => false)
           (fun _ => false) slash_join (fun _ => WriteOk)
           [table_row (lit "1") (lit "en_gb");
            table_row (lit "2") (lit "fr_fr")]
           (lit "pack/lang") fs _ [] (lit "fr_fr") None fallback_data).
  - vm_compute. reflexivity.
  - vm_compute. right. left.
  - vm_compute. reflexivity.
  - split; [vm_compute; reflexivity|]. split.
    + apply not_elem_of_empty.
    + vm_compute. discriminate.
  - intros c Hc. vm_compute in Hc.
    apply elem_of_cons in Hc as [->|Hc];
      [|apply elem_of_cons in Hc as [->|Hc]; [|inversion Hc]];
      vm_compute; discriminate.
  - intros c Hc. vm_compute in Hc.
    apply elem_of_cons in Hc as [->|Hc];
      [|apply elem_of_cons in Hc as [->|Hc]; [|inversion Hc]];
      vm_compute; [discriminate | reflexivity].
Defined.

(** * More about the downloader *)

Section DownloadContent.

Variable path_join : pystr -> pystr -> pystr.
Variable disk : pystr -> disk_outcome.
Variable http_get : pystr -> http_reply.
Variable json_loads : pystr -> option json.
Variable cache_dir : pystr.

Local Abbreviation fetch' := (fetch path_join http_get json_loads cache_dir).
Local Abbreviation step_task' :=
  (step_task path_join disk http_get json_loads cache_dir).
Local Abbreviation loop_step' :=
  (loop_step path_join disk http_get json_loads cache_dir).
Local Abbreviation task_at' :=
  (task_at path_join disk http_get json_loads cache_dir).

(** What [fetch] hands on to the write. *)
Lemma fetch_inr info file_path data :
  fetch' info = inr (file_path, data) ->
  exists file_name file_url status text,
    info !! NAME = Some file_name /\
    info !! DOWNLOAD_URL = Some file_url /\
    http_get file_url = Reply status (Some text) /\
    status < 400 /\ json_loads text = Some data /\
    file_path = path_join cache_dir file_name.
Proof.
  unfold fetch.
  destruct (info !! NAME) as [file_name|]; [|discriminate].
  destruct (info !! DOWNLOAD_URL) as [file_url|]; [|discriminate].
  destruct (http_get file_url) as [|status [text|]] eqn:Eget;
    try discriminate; [|destruct (400 <=? status); discriminate].
  destruct (400 <=? status) eqn:Est; [discriminate|].
  destruct (json_loads text) as [d|] eqn:Ejs; [|discriminate].
  intros [= <- <-]. apply N.leb_gt in Est.
  exists file_name, file_url, status, text. auto 7.
Qed.

(** A step of a task that is at its place leaves it at its place. *)
Lemma step_task_at fs info t :
  task_at' fs info t -> is_done t = false ->
  task_at' (step_task' t fs).2 info (step_task' t fs).1.
Proof.
  unfold task_at. destruct (fetch' info) as [r|[file_path data]] eqn:Ef.
  - intros [-> | ->]; [|discriminate]. intros _. simpl. rewrite Ef. now right.
  - intros [-> | [-> | [[-> Hg] | [[-> _] | [-> _]]]]]; try discriminate; intros _.
    + simpl. rewrite Ef. right. now left.
    + simpl. destruct (disk file_path) eqn:Ed; simpl.
      * right. right. right. right. split; [reflexivity | congruence].
      * right. right. left. split; [reflexivity | apply lookup_insert_eq].
      * right. right. left. split; [reflexivity | apply lookup_insert_eq].
    + simpl. destruct (disk file_path) eqn:Ed; simpl.
      * right. right. right. right. split; [reflexivity | congruence].
      * right. right. right. right. split; [reflexivity | congruence].
      * right. right. right. left. split; [reflexivity|].
        apply lookup_insert_eq.
Qed.

(** The files a step changes: none but the destination of its task. *)
Lemma step_task_files fs info t p :
  task_at' fs info t ->
  (forall data, fetch' info <> inr (p, data)) ->
  files (step_task' t fs).2 !! p = files fs !! p.
Proof.
  unfold task_at. intros Hat Hp.
  destruct (fetch' info) as [r|[file_path data]] eqn:Ef.
  - destruct Hat as [-> | ->]; simpl; [now rewrite Ef | reflexivity].
  - assert (Hne : file_path <> p) by (intros ->; now apply (Hp data)).
    destruct Hat as [-> | [-> | [[-> _] | [[-> _] | [-> _]]]]]; simpl;
      try reflexivity.
    + now rewrite Ef.
    + destruct (disk file_path); simpl; try reflexivity;
        now rewrite lookup_insert_ne.
    + destruct (disk file_path); simpl; try reflexivity;
        now rewrite lookup_insert_ne.
Qed.

(** A write elsewhere leaves a task at its place. *)
Lemma task_at_other fs fs2 info t :
  (forall file_path data, fetch' info = inr (file_path, data) ->
     files fs2 !! file_path = files fs !! file_path) ->
  task_at' fs info t -> task_at' fs2 info t.
Proof.
  unfold task_at. intros Hsame.
  destruct (fetch' info) as [r|[file_path data]]; [auto|].
  rewrite (Hsame file_path data eq_refl). auto.
Qed.

Section Batch.

Variable json_files : list file_info.
Hypothesis Hdistinct :
  distinct_destinations path_join http_get json_loads cache_dir json_files.

Local Abbreviation all_at :=
  (all_at path_join disk http_get json_loads cache_dir json_files).

Lemma all_at_start fs : all_at (Start <$> json_files, fs).
Proof.
  split; [apply length_fmap|]. intros i info t Hi Ht. simpl in Ht.
  rewrite list_lookup_fmap, Hi in Ht. injection Ht as <-.
  unfold task_at. destruct (fetch' info) as [r|[file_path data]]; now left.
Qed.

Lemma all_at_step st st' : all_at st -> loop_step' st st' -> all_at st'.
Proof.
  intros Hinv Hstep. destruct Hstep as [j tj ts fs Hj Hdone].
  destruct Hinv as [Hlen Hall]. simpl in *.
  split; simpl; [now rewrite length_insert|].
  assert (Hj' : exists info_j, json_files !! j = Some info_j).
  { apply lookup_lt_is_Some. rewrite <- Hlen.
    eapply lookup_lt_is_Some. eauto. }
  destruct Hj' as [info_j Hinfo_j].
  pose proof (Hall j info_j tj Hinfo_j Hj) as Hat_j.
  intros i info t Hi Ht.
  destruct (decide (i = j)) as [->|Hne].
  - rewrite list_lookup_insert_eq in Ht
      by (eapply lookup_lt_is_Some; eauto).
    injection Ht as <-. rewrite Hinfo_j in Hi. injection Hi as <-.
    now apply step_task_at.
  - rewrite list_lookup_insert_ne in Ht by congruence.
    apply (task_at_other fs); [|now apply (Hall i)].
    intros file_path data Hf.
    apply (step_task_files fs info_j tj file_path Hat_j).
    intros data_j Hfj. apply Hne.
    apply (Hdistinct i j info info_j file_path data data_j Hi Hinfo_j Hf Hfj).
Qed.

Lemma all_at_nsteps n fs st :
  nsteps loop_step' n (Start <$> json_files, fs) st -> all_at st.
Proof.
  intros H. remember (Start <$> json_files, fs) as st0 eqn:E.
  assert (H0 : all_at st0) by (subst; apply all_at_start).
  clear E. induction H as [st|n st st1 st2 Hstep _ IH]; [exact H0|].
  apply IH. now apply (all_at_step st).
Qed.

End Batch.

End DownloadContent.

(** X7: a download that returns [True] has put the parsed body of the
    reply at [cache_dir / name] and changed nothing else; the reply had a
    status below 400 and a body that is JSON. *)
Theorem download_file_true_writes_body
    (path_join : pystr -> pystr -> pystr) (disk : pystr -> disk_outcome)
    (http_get : pystr -> http_reply) (json_loads : pystr -> option json)
    (info : file_info) (cache_dir : pystr) (fs fs' : fsys) :
  download_file path_join disk http_get json_loads info cache_dir fs
    = (Returned true, fs') ->
  exists file_name file_url status text data,
    info !! NAME = Some file_name /\
    info !! DOWNLOAD_URL = Some file_url /\
    http_get file_url = Reply status (Some text) /\
    status < 400 /\ json_loads text = Some data /\
    fs' = set_file (path_join cache_dir file_name) (Text data) fs.
Proof.
  unfold download_file.
  destruct (fetch _ _ _ cache_dir info) as [r|[file_path data]] eqn:Ef.
  - intros [= -> <-]. exfalso. unfold fetch in Ef.
    destruct (info !! NAME); [|discriminate].
    destruct (info !! DOWNLOAD_URL) as [file_url|]; [|discriminate].
    destruct (http_get file_url) as [|status [text|]]; try discriminate;
      destruct (400 <=? status); try discriminate.
    destruct (json_loads text); discriminate.
  - apply fetch_inr in Ef
      as (file_name & file_url & status & text & Hn & Hu & Hg & Hs & Hj & ->).
    destruct (disk _); try discriminate. intros [= <-].
    exists file_name, file_url, status, text, data. auto 7.
Qed.

Lemma download_file_true_writes_body_witness :
  exists file_name file_url status text data,
    descriptor (lit "en_gb.json") (lit "https://example.org/en_gb.json")
      !! NAME = Some file_name /\
    descriptor (lit "en_gb.json") (lit "https://example.org/en_gb.json")
      !! DOWNLOAD_URL = Some file_url /\
    example_get file_url = Reply status (Some text) /\
    status < 400 /\ example_loads text = Some data /\
    fs_of [(lit ".cache/languages/en_gb.json", Text (JObject ∅))]
    = set_file (slash_join CACHE_DIR file_name) (Text data) (fs_of []).
Proof.
  apply (download_file_true_writes_body slash_join (fun _ => WriteOk)).
  vm_compute. reflexivity.
Defined.

Section Schedules.

Variable path_join : pystr -> pystr -> pystr.
Variable disk : pystr -> disk_outcome.
Variable http_get : pystr -> http_reply.
Variable json_loads : pystr -> option json.
Variable cache_dir : pystr.

Local Abbreviation step_task' :=
  (step_task path_join disk http_get json_loads cache_dir).
Local Abbreviation loop_step' :=
  (loop_step path_join disk http_get json_loads cache_dir).
Local Abbreviation download_file' info :=
  (download_file path_join disk http_get json_loads info cache_dir).
Local Abbreviation gather' json_files :=
  (gather path_join disk http_get json_loads json_files cache_dir).

Lemma set_file_twice p c c' fs :
  set_file p c (set_file p c' fs) = set_file p c fs.
Proof. unfold set_file. simpl. now rewrite insert_insert_eq. Qed.

(** A step of the task that stands between [pre] and [post]. *)
Lemma loop_step_middle pre t post fs :
  is_done t = false ->
  loop_step' (pre ++ t :: post, fs)
    (pre ++ (step_task' t fs).1 :: post, (step_task' t fs).2).
Proof.
  intros Hd.
  pose proof (loop_step_at path_join disk http_get json_loads cache_dir
                (length pre) t (pre ++ t :: post) fs
                (list_lookup_middle pre post t _ eq_refl) Hd) as H.
  rewrite insert_app_r_alt in H by lia.
  now rewrite Nat.sub_diag in H.
Qed.

(** One task run from its start to its end, the others waiting, does
    what [download_file] does. *)
Lemma loop_runs_download_file pre info post fs :
  exists n,
    nsteps loop_step' n (pre ++ Start info :: post, fs)
      (pre ++ Done (download_file' info fs).1 :: post,
       (download_file' info fs).2).
Proof.
  pose proof (loop_step_middle pre (Start info) post fs eq_refl) as H1.
  unfold download_file. simpl in H1.
  destruct (fetch _ _ _ cache_dir info) as [r|[file_path data]].
  { exists 1%nat. now apply nsteps_once. }
  pose proof (loop_step_middle pre (Parsed file_path data) post fs eq_refl)
    as H2.
  simpl in H1, H2. destruct (disk file_path) eqn:Ed; simpl in *.
  - exists 2%nat. eapply nsteps_l; [exact H1|]. now apply nsteps_once.
  - pose proof (loop_step_middle pre (Opened file_path data) post
                  (set_file file_path Garbage fs) eq_refl) as H3.
    simpl in H3. rewrite Ed in H3. simpl in H3.
    exists 3%nat. eapply nsteps_l; [exact H1|].
    eapply nsteps_l; [exact H2|]. now apply nsteps_once.
  - pose proof (loop_step_middle pre (Opened file_path data) post
                  (set_file file_path Garbage fs) eq_refl) as H3.
    simpl in H3. rewrite Ed in H3. simpl in H3.
    rewrite set_file_twice in H3.
    exists 3%nat. eapply nsteps_l; [exact H1|].
    eapply nsteps_l; [exact H2|]. now apply nsteps_once.
Qed.

(** Running the tasks one after the other is one way the loop can go. *)
Lemma gather_is_a_schedule pre json_files fs :
  exists n,
    nsteps loop_step' n (pre ++ (Start <$> json_files), fs)
      (pre ++ (Done <$> (gather' json_files fs).1),
       (gather' json_files fs).2).
Proof.
  revert pre fs. induction json_files as [|info rest IH]; intros pre fs.
  - exists 0%nat. apply nsteps_O.
  - destruct (loop_runs_download_file pre info (Start <$> rest) fs)
      as [n1 H1].
    simpl. destruct (download_file' info fs) as [r fs1]. simpl in H1.
    destruct (IH (pre ++ [Done r]) fs1) as [n2 H2].
    destruct (gather' rest fs1) as [results fs2]. simpl in *.
    rewrite <- !app_assoc in H2. simpl in H2.
    exists (n1 + n2)%nat. eapply nsteps_trans; eauto.
Qed.

End Schedules.

Section BatchContent.

Variable path_join : pystr -> pystr -> pystr.
Variable disk : pystr -> disk_outcome.
Variable http_get : pystr -> http_reply.
Variable json_loads : pystr -> option json.
Variable cache_dir : pystr.
Variable json_files : list file_info.

Hypothesis Hdistinct :
  distinct_destinations path_join http_get json_loads cache_dir json_files.

(** When the loop is through, the task of a descriptor whose body parsed
    and whose write the disk took has returned [True], and its file holds
    the body. *)
Lemma loop_content n fs ts fs' i info file_path data :
  nsteps (loop_step path_join disk http_get json_loads cache_dir) n
    (Start <$> json_files, fs) (ts, fs') ->
  Forall (fun t => is_done t = true) ts ->
  json_files !! i = Some info ->
  fetch path_join http_get json_loads cache_dir info
    = inr (file_path, data) ->
  disk file_path = WriteOk ->
  ts !! i = Some (Done (Returned true)) /\
  files fs' !! file_path = Some (Text data).
Proof.
  intros Hrun Hdone Hi Hf Hd.
  apply (all_at_nsteps path_join disk http_get json_loads cache_dir
           json_files Hdistinct) in Hrun as [Hlen Hall]. simpl in *.
  assert (Ht : exists t, ts !! i = Some t).
  { apply lookup_lt_is_Some. rewrite Hlen.
    eapply lookup_lt_is_Some. eauto. }
  destruct Ht as [t Ht].
  pose proof (Hall i info t Hi Ht) as Hat. unfold task_at in Hat.
  rewrite Hf in Hat.
  rewrite Forall_forall in Hdone.
  pose proof (Hdone t (list_elem_of_lookup_2 _ _ _ Ht)) as Htd.
  destruct Hat as [-> | [-> | [[-> _] | [[-> Hfile] | [-> Hno]]]]];
    try discriminate; [auto | congruence].
Qed.

Lemma gather_content fs i info file_path data :
  json_files !! i = Some info ->
  fetch path_join http_get json_loads cache_dir info
    = inr (file_path, data) ->
  disk file_path = WriteOk ->
  files (gather path_join disk http_get json_loads json_files cache_dir
           fs).2 !! file_path
  = Some (Text data).
Proof.
  intros Hi Hf Hd.
  destruct (gather_is_a_schedule path_join disk http_get json_loads
              cache_dir [] json_files fs) as [n Hrun].
  simpl in Hrun.
  eapply loop_content; eauto.
  apply Forall_fmap, Forall_forall. reflexivity.
Qed.

End BatchContent.

(** X8: when no two descriptors of a batch go to the same path, the
    order in which the loop runs the tasks does not matter to a
    descriptor whose body parses and whose write the disk takes: once
    all tasks are done its result is [True] and its file holds the parsed
    body, and so it does after [download_all_files]. *)
Theorem downloaded_file_holds_body
    (path_join : pystr -> pystr -> pystr) (disk : pystr -> disk_outcome)
    (http_get : pystr -> http_reply) (json_loads : pystr -> option json)
    (json_files : list file_info) (cache_dir : pystr) (fs : fsys)
    (i : nat) (info : file_info) (file_path : pystr) (data : json) :
  distinct_destinations path_join http_get json_loads cache_dir json_files ->
  json_files !! i = Some info ->
  fetch path_join http_get json_loads cache_dir info
    = inr (file_path, data) ->
  disk file_path = WriteOk ->
  (forall n ts fs',
     nsteps (loop_step path_join disk http_get json_loads cache_dir) n
       (Start <$> json_files, fs) (ts, fs') ->
     Forall (fun t => is_done t = true) ts ->
     ts !! i = Some (Done (Returned true)) /\
     files fs' !! file_path = Some (Text data)) /\
  files (download_all_files path_join disk http_get json_loads json_files
           cache_dir fs).2 !! file_path
  = Some (Text data).
Proof.
  intros Hdistinct Hi Hf Hd. split.
  - intros n ts fs' Hrun Hdone. eapply loop_content; eauto.
  - pose proof (gather_content path_join disk http_get json_loads cache_dir
                  json_files Hdistinct fs i info file_path data Hi Hf Hd)
      as H.
    unfold download_all_files.
    destruct (gather _ _ _ _ json_files cache_dir fs) as [results fs2].
    exact H.
Qed.

Lemma example_files_distinct :
  distinct_destinations slash_join example_get example_loads CACHE_DIR
    example_files.
Proof.
  intros i j info_i info_j file_path data_i data_j Hi Hj Hfi Hfj.
  destruct i as [|[|i]], j as [|[|j]]; try reflexivity;
    simpl in Hi, Hj; try discriminate;
    injection Hi as <-; injection Hj as <-;
    vm_compute in Hfi, Hfj; discriminate.
Qed.

Lemma downloaded_file_holds_body_witness :
  files (download_all_files slash_join (fun _ => WriteOk) example_get
           example_loads example_files CACHE_DIR (fs_of [])).2
    !! lit ".cache/languages/en_gb.json"
  = Some (Text (JObject ∅)).
Proof.
  refine (proj2 (downloaded_file_holds_body slash_join (fun _ => WriteOk)
                   example_get example_loads example_files CACHE_DIR
                   (fs_of []) 0%nat
                   (descriptor (lit "en_gb.json")
                      (lit "https://example.org/en_gb.json"))
                   (lit ".cache/languages/en_gb.json") (JObject ∅)
                   example_files_distinct _ _ _)); reflexivity.
Defined.

(** * More about [get_language_files] *)

Lemma ends_with_spec suffix s :
  ends_with suffix s = true <-> exists pre, s = pre ++ suffix.
Proof.
  unfold ends_with. split.
  - intros H. apply starts_with_true in H as [post H].
    exists (rev post). apply (f_equal (@rev N)) in H.
    now rewrite rev_involutive, rev_app_distr, rev_involutive in H.
  - intros [pre ->]. rewrite rev_app_distr. apply starts_with_app.
Qed.

Lemma has_json_name_spec f : has_json_name f = true <-> json_named f.
Proof.
  unfold has_json_name, json_named. destruct (f !! NAME) as [name|].
  - rewrite ends_with_spec. split; intros [stem H]; exists stem; congruence.
  - split; [discriminate | intros [stem H]; discriminate].
Qed.

(** A name that ends in ".json" is not "README.md". *)
Lemma json_name_not_readme name :
  ends_with DOT_JSON name = true -> str_eqb name (lit "README.md") = false.
Proof.
  intros H. apply bool_decide_eq_false. intros ->.
  vm_compute in H. discriminate.
Qed.

Lemma select_json_files_filter files :
  (forall f, f ∈ files -> is_Some (f !! NAME)) ->
  select_json_files files
  = inr (filter (fun f => has_json_name f = true) files).
Proof.
  induction files as [|f rest IH]; intros Hnames; [reflexivity|].
  cbn [select_json_files]. unfold is_json_file.
  destruct (Hnames f ltac:(left)) as [name Hname]. rewrite Hname.
  rewrite IH by (intros f' Hf'; apply Hnames; now right).
  assert (Hh : has_json_name f = ends_with DOT_JSON name)
    by (unfold has_json_name; now rewrite Hname).
  rewrite filter_cons.
  destruct (ends_with DOT_JSON name) eqn:E.
  - rewrite (json_name_not_readme name E). simpl.
    now rewrite decide_True.
  - simpl. rewrite decide_False; [reflexivity | congruence].
Qed.

Lemma select_json_files_names files json_files :
  select_json_files files = inr json_files ->
  forall f, f ∈ files -> is_Some (f !! NAME).
Proof.
  revert json_files. induction files as [|f rest IH]; intros json_files H f0 Hin;
    [inversion Hin|].
  cbn [select_json_files] in H. unfold is_json_file in H.
  destruct (f !! NAME) as [name|] eqn:Hname; [|discriminate].
  destruct (select_json_files rest) as [e|kept]; [discriminate|].
  apply elem_of_cons in Hin as [->|Hin]; [eauto|].
  now apply (IH kept).
Qed.

Lemma select_json_files_unnamed files f :
  f ∈ files -> f !! NAME = None ->
  select_json_files files = inl ErrorDownloading.
Proof.
  induction files as [|f0 rest IH]; intros Hin Hnone; [inversion Hin|].
  cbn [select_json_files]. unfold is_json_file.
  destruct (f0 !! NAME) as [name|] eqn:Hname; [|reflexivity].
  apply elem_of_cons in Hin as [->|Hin]; [congruence|].
  now rewrite IH.
Qed.

(** X9: of a listing whose entries all have a name, line 83 keeps, in
    their order, exactly the entries whose name ends in ".json"; the test
    against "README.md" excludes nothing. *)
Theorem select_json_files_keeps_json_names (files json_files : list file_info) :
  select_json_files files = inr json_files ->
  json_files = filter (fun f => has_json_name f = true) files /\
  forall f, f ∈ json_files <-> f ∈ files /\ json_named f.
Proof.
  intros H.
  pose proof (select_json_files_filter files
                (select_json_files_names files json_files H)) as Hf.
  rewrite H in Hf. injection Hf as ->. split; [reflexivity|].
  intros f. rewrite list_elem_of_filter, has_json_name_spec. tauto.
Qed.

Lemma select_json_files_keeps_json_names_witness :
  [descriptor (lit "en_gb.json") (lit "https://example.org/en_gb.json")]
  = filter (fun f => has_json_name f = true)
      [descriptor (lit "README.md") (lit "https://example.org/README.md");
       descriptor (lit "en_gb.json") (lit "https://example.org/en_gb.json")]
  /\
  forall f,
    f ∈ [descriptor (lit "en_gb.json") (lit "https://example.org/en_gb.json")]
    <-> f ∈ [descriptor (lit "README.md")
               (lit "https://example.org/README.md");
             descriptor (lit "en_gb.json")
               (lit "https://example.org/en_gb.json")] /\ json_named f.
Proof.
  apply select_json_files_keeps_json_names. vm_compute. reflexivity.
Defined.

Section GetLanguageFiles.

Variable path_join : pystr -> pystr -> pystr.
Variable disk : pystr -> disk_outcome.
Variable http_get : pystr -> http_reply.
Variable json_loads : pystr -> option json.

Local Abbreviation get_language_files' :=
  (get_language_files path_join disk http_get json_loads).

(** What [get_language_files] comes to once the cache directory is made
    and the listing is there. *)
Lemma get_language_files_eq (entries : list file_info) fs fs1 :
  mkdir CACHE_DIR fs = (inr tt, fs1) ->
  get_language_files' (Some entries) fs
  = match select_json_files entries with
    | inl e => (inl e, fs1)
    | inr json_files =>
      (inr tt,
       (download_all_files path_join disk http_get json_loads json_files
          CACHE_DIR fs1).2)
    end.
Proof.
  intros Hdir. unfold get_language_files, mbind, M_bind, mret, M_ret, lift,
    raise, run_downloads. simpl. rewrite Hdir. simpl.
  destruct (select_json_files entries) as [e|json_files]; [reflexivity|].
  simpl. destruct (download_all_files _ _ _ _ _ _ _) as [successful fs'].
  reflexivity.
Qed.

(** Line 76 stands before the [try]: what [mkdir] raises is what the
    function raises. *)
Lemma get_language_files_no_directory listing fs e fs' :
  mkdir CACHE_DIR fs = (inl e, fs') ->
  get_language_files' listing fs = (inl e, fs').
Proof.
  intros Hdir. unfold get_language_files, mbind, M_bind at 1.
  simpl. now rewrite Hdir.
Qed.

End GetLanguageFiles.

Lemma get_language_files_named
    (path_join : pystr -> pystr -> pystr) (disk : pystr -> disk_outcome)
    (http_get : pystr -> http_reply) (json_loads : pystr -> option json)
    (entries : list file_info) (fs fs1 : fsys) :
  mkdir CACHE_DIR fs = (inr tt, fs1) ->
  (forall f, f ∈ entries -> is_Some (f !! NAME)) ->
  get_language_files path_join disk http_get json_loads (Some entries) fs
  = (inr tt,
     (download_all_files path_join disk http_get json_loads
        (filter (fun f => has_json_name f = true) entries) CACHE_DIR
        fs1).2).
Proof.
  intros Hdir Hnames. rewrite (get_language_files_eq _ _ _ _ _ _ _ Hdir).
  now rewrite select_json_files_filter.
Qed.

(** The one directory above the cache directory. *)
Example path_parents_cache : path_parents CACHE_DIR = [lit ".cache"].
Proof. vm_compute. reflexivity. Qed.

(** X11: a listing entry without a name stops [get_language_files] with
    the error of a failed download step before any request for a file is
    made.  When no regular file stands at the cache directory or above
    it, so that line 76 goes through, the function raises that error, the
    cache directory and the one above it are there, and no file has
    changed. *)
Theorem get_language_files_unnamed_entry
    (path_join : pystr -> pystr -> pystr) (disk : pystr -> disk_outcome)
    (http_get : pystr -> http_reply) (json_loads : pystr -> option json)
    (entries : list file_info) (f : file_info) (fs : fsys) :
  files fs !! CACHE_DIR = None ->
  (forall a, a ∈ path_parents CACHE_DIR -> files fs !! a = None) ->
  f ∈ entries -> f !! NAME = None ->
  get_language_files path_join disk http_get json_loads (Some entries) fs
  = (inl ErrorDownloading,
     {| files := files fs;
        dirs := {[CACHE_DIR]} ∪ list_to_set (path_parents CACHE_DIR)
                ∪ dirs fs |}).
Proof.
  intros Hdir Habove Hin Hnone.
  rewrite (get_language_files_eq _ _ _ _ _ _ _
             (mkdir_makes _ _ Hdir Habove)).
  now rewrite (select_json_files_unnamed entries f Hin Hnone).
Qed.

Lemma get_language_files_unnamed_entry_witness :
  get_language_files slash_join (fun _ => WriteOk) example_get example_loads
    (Some (example_files ++ [{[ DOWNLOAD_URL := lit "https://example.org" ]}]))
    (fs_of [])
  = (inl ErrorDownloading,
     {| files := files (fs_of []);
        dirs := {[CACHE_DIR]} ∪ list_to_set (path_parents CACHE_DIR)
                ∪ dirs (fs_of []) |}).
Proof.
  apply (get_language_files_unnamed_entry slash_join (fun _ => WriteOk)
           example_get example_loads _
           {[ DOWNLOAD_URL := lit "https://example.org" ]}).
  - reflexivity.
  - intros a Ha. reflexivity.
  - apply elem_of_app. right. left.
  - vm_compute. reflexivity.
Defined.

(** A regular file at [.cache]: line 76 raises, outside the [try], and
    the error is not the one of a failed download step. *)
Example get_language_files_under_a_file :
  get_language_files slash_join (fun _ => WriteOk) example_get example_loads
    (Some example_files) (fs_of [(lit ".cache", Garbage)])
  = (inl NotADirectoryError, fs_of [(lit ".cache", Garbage)]).
Proof. vm_compute. reflexivity. Qed.

(** * The download and the processing together *)

Section NoFallbackError.

Variable uni_decimal : N -> bool.
Variable uni_alpha : N -> bool.
Variable uni_digit : N -> bool.
Variable path_join : pystr -> pystr -> pystr.
Variable disk : pystr -> disk_outcome.

Lemma source_message_error fallback_sleep_msg lang_code fs e fs' :
  source_message path_join fallback_sleep_msg lang_code fs = (inl e, fs') ->
  e <> FallbackNotFound.
Proof.
  unfold source_message, mbind, M_bind, path_exists, load_json. simpl.
  destruct (_ || _); [|discriminate].
  destruct (files fs !! _) as [[[d|]|]|]; simpl; intros [= <- _];
    discriminate.
Qed.

Lemma process_one_error output_dir fallback_sleep_msg lang_code fs e fs' :
  process_one uni_decimal path_join disk output_dir fallback_sleep_msg
    lang_code fs = (inl e, fs') ->
  e <> FallbackNotFound.
Proof.
  unfold process_one, mbind, M_bind at 1.
  destruct (source_message _ _ _ fs) as [[e1|sleep_msg] fs1] eqn:Es.
  - intros [= <- _]. eapply source_message_error, Es.
  - unfold dump_json. destruct (disk _); intros [= <- _]; discriminate.
Qed.

Lemma for_each_error output_dir fallback_sleep_msg language_codes fs e fs' :
  for_each language_codes
    (process_one uni_decimal path_join disk output_dir fallback_sleep_msg)
    fs = (inl e, fs') ->
  e <> FallbackNotFound.
Proof.
  revert fs. induction language_codes as [|c rest IH]; intros fs;
    [discriminate|].
  simpl. unfold mbind, M_bind at 1.
  destruct (process_one _ _ _ _ _ c fs) as [[e1|[]] fs1] eqn:E1.
  - intros [= <- _]. eapply process_one_error, E1.
  - apply IH.
Qed.

Lemma check_unmodified_error output_dir language_codes unmodified_files
    fs e fs' :
  check_unmodified path_join output_dir language_codes unmodified_files fs
    = (inl e, fs') ->
  e <> FallbackNotFound.
Proof.
  revert unmodified_files.
  induction language_codes as [|c rest IH]; intros acc; [discriminate|].
  simpl. unfold mbind, M_bind, path_exists, load_json. simpl.
  destruct (_ || _); [|apply IH].
  destruct (files fs !! _) as [[[d|]|]|]; simpl;
    try (intros [= <- _]; discriminate).
  destruct (has_placeholder _); apply IH.
Qed.

(** With a file at the path of [en_gb.json], whatever stops the function
    is not the missing fallback. *)
Lemma process_with_fallback wiki output_path fs :
  is_Some (files fs !! path_join CACHE_DIR (lit "en_gb.json")) ->
  (process_sleep_messages uni_decimal uni_alpha uni_digit path_join disk
     wiki output_path fs).1 <> inl FallbackNotFound.
Proof.
  intros Hfb. unfold process_sleep_messages, mbind, M_bind at 1.
  destruct (write_outputs _ _ _ _ _ _ _ fs) as [[e|codes] fs1] eqn:Ew.
  - simpl. intros [= ->]. revert Ew.
    unfold write_outputs, get_language_codes.
    destruct wiki as [| |rows]; try discriminate.
    unfold mbind, M_bind, mret, M_ret, lift, raise. simpl.
    destruct (mkdir output_path fs) as [[e|[]] fs2] eqn:Emk.
    { apply mkdir_inl in Emk as [_ [-> | ->]]; discriminate. }
    apply mkdir_inr in Emk as ->.
    unfold path_exists, load_json. simpl.
    rewrite (bool_decide_eq_true_2 _ Hfb). simpl.
    destruct (files fs !! path_join CACHE_DIR (lit "en_gb.json"))
      as [[[d|]|]|]; try discriminate. simpl.
    match goal with
    | |- context [for_each ?codes ?body ?s] =>
      destruct (for_each codes body s) as [[e|[]] fs2] eqn:Eloop
    end; [|discriminate].
    intros [= -> _]. now apply for_each_error in Eloop.
  - destruct (check_unmodified _ _ _ _ fs1) as [[e|report] fs2] eqn:Ec;
      [|discriminate].
    simpl. intros [= ->]. now apply check_unmodified_error in Ec.
Qed.

End NoFallbackError.

(** X12: a run of the entry point that downloads [en_gb.json] does not
    stop on the missing fallback.  When every listing entry has a name,
    no two kept entries go to the same path, and the entry named
    "en_gb.json" is fetched, parsed and written, the processing step
    finds the fallback file.  (A run in which the cache directory
    cannot be made stops at line 76, on the error of [mkdir].) *)
Theorem main_download_provides_fallback
    (uni_decimal uni_alpha uni_digit : N -> bool)
    (path_join : pystr -> pystr -> pystr) (disk : pystr -> disk_outcome)
    (http_get : pystr -> http_reply) (json_loads : pystr -> option json)
    (entries : list file_info) (wiki : page) (output_path : pystr)
    (fs : fsys) (i : nat) (info : file_info) (data : json) :
  (forall f, f ∈ entries -> is_Some (f !! NAME)) ->
  distinct_destinations path_join http_get json_loads CACHE_DIR
    (filter (fun f => has_json_name f = true) entries) ->
  filter (fun f => has_json_name f = true) entries !! i = Some info ->
  fetch path_join http_get json_loads CACHE_DIR info
    = inr (path_join CACHE_DIR (lit "en_gb.json"), data) ->
  disk (path_join CACHE_DIR (lit "en_gb.json")) = WriteOk ->
  (main path_join disk http_get json_loads (Some entries) uni_decimal
     uni_alpha uni_digit wiki output_path false fs).1
  <> inl FallbackNotFound.
Proof.
  intros Hnames Hdistinct Hi Hf Hd.
  unfold main, mbind, M_bind at 1. simpl.
  destruct (mkdir CACHE_DIR fs) as [[e|[]] fs1] eqn:Emk.
  { rewrite (get_language_files_no_directory path_join disk http_get
               json_loads _ _ _ _ Emk).
    simpl. apply mkdir_inl in Emk as [_ [-> | ->]]; discriminate. }
  rewrite (get_language_files_named path_join disk
             http_get json_loads entries fs fs1 Emk Hnames).
  apply process_with_fallback.
  unfold download_all_files.
  pose proof (gather_content path_join disk http_get json_loads CACHE_DIR
                _ Hdistinct fs1 i info _ data Hi Hf Hd) as Hc.
  destruct (gather _ _ _ _ _ CACHE_DIR _) as [results fs2].
  simpl in *. rewrite Hc. eauto.
Qed.

Lemma main_download_provides_fallback_witness :
  (main slash_join (fun _ => WriteOk) example_get example_loads
     (Some example_files) (fun _ => false) (fun _ => false)
     (fun _ => false) (PageWithTable [table_row (lit "1") (lit "en_gb")])
     (lit "pack") false (fs_of [])).1
  <> inl FallbackNotFound.
Proof.
  apply (main_download_provides_fallback (fun _ => false) (fun _ => false)
           (fun _ => false) slash_join (fun _ => WriteOk) example_get
           example_loads example_files
           (PageWithTable [table_row (lit "1") (lit "en_gb")]) (lit "pack")
           (fs_of []) 0%nat
           (descriptor (lit "en_gb.json")
              (lit "https://example.org/en_gb.json"))
           (JObject ∅)).
  - intros f Hf.
    apply elem_of_cons in Hf as [->|Hf];
      [|apply elem_of_cons in Hf as [->|Hf]; [|inversion Hf]];
      eexists; vm_compute; reflexivity.
  - exact example_files_distinct.
  - reflexivity.
  - reflexivity.
  - reflexivity.
Defined.

(** The run of the witness: the download writes [en_gb.json] and the
    processing step writes the output of the one language. *)
Example main_run :
  main slash_join (fun _ => WriteOk) example_get example_loads
    (Some example_files) (fun _ => false) (fun _ => false)
    (fun _ => false) (PageWithTable [table_row (lit "1") (lit "en_gb")])
    (lit "pack") false (fs_of [])
  = (inr [],
     {| files :=
          {[ lit ".cache/languages/en_gb.json" := Text (JObject ∅);
             lit "pack/lang/en_gb.json" :=
               Text (JObject {[ SLEEP_KEY := lit "??? players sleeping" ]}) ]};
        dirs := {[ lit ".cache"; CACHE_DIR; lit "pack"; lit "pack/lang" ]} |}).
Proof. vm_compute. reflexivity. Qed.

(** * Examples for the extractor *)

Lemma plain_row_code_shape_witness :
  language_identifier (fun _ => false) (lit "en_us").
Proof.
  apply (plain_row_code_shape (fun _ => false) (fun _ => false)
           (table_row (lit "1") (lit "en_us")));
    vm_compute; reflexivity.
Defined.

Lemma je_row_code_shape_witness :
  exists a b, lit "lol_us" = a ++ UNDERSCORE :: b /\
              (UNDERSCORE ∉ a) /\ (UNDERSCORE ∉ b).
Proof.
  apply (je_row_code_shape (fun _ => false) (fun _ => false)
           (table_row (lit "1") (lit "lol_us" ++ JE_ONLY)));
    vm_compute; reflexivity.
Defined.

(** A code that only Java Edition has and that holds no underscore is
    turned down, with the marker or without the underscore test of the
    other branch. *)
Example je_only_single_token_is_skipped (uni_alpha uni_digit : N -> bool) :
  row_code uni_alpha uni_digit (table_row (lit "1") (lit "enp" ++ JE_ONLY))
    = None /\
  row_code uni_alpha uni_digit (table_row (lit "1") (lit "enp"))
    = Some (lit "enp").
Proof. split; vm_compute; reflexivity. Qed.
